(** * A shallow embedding of the thermal engine of thermal-video-analyzer

    The C++ class [ThermalEngine] (src/native/thermal_engine.cpp) keeps a
    calibration table from packed RGB keys to temperatures, a video source
    with a one-frame decode cache, a Bresenham line rasterizer and a line
    analyzer that resolves every rasterized pixel to a temperature.

    Modelling choices:
    - [int] and [uint32_t] values are [Z]; unsigned wrap-around is written
      out with [u32].  The rasterizer has two models: [getLinePixels] on
      mathematical integers, and [getLinePixels32], in which every signed
      [int] operation is checked and an overflow (undefined behaviour in
      C++) is an outcome of its own; the two agree where nothing
      overflows.
    - [float] temperatures are rationals [Q]; no claim depends on rounding.
    - [std::unordered_map<uint32_t,float>] is a [gmap Z Q]; its iteration
      order, which the C++ standard leaves to the implementation, is a
      parameter [iter_order] of the section that uses it, only required to
      enumerate the map's bindings.
    - [cv::Mat] is a record of its dimensions and a pixel function;
      [cv::VideoCapture] is a record of its open flag, its read position and
      the decoding of each frame index. *)

From Stdlib Require Import ZArith QArith Qminmax String Ascii List Lia.
From stdpp Require Import base gmap list.

Open Scope Z_scope.

(** Leibniz equality on [Q] is decidable (used to compare table entries). *)
#[global] Instance Q_eq_decision : EqDecision Q.
Proof. solve_decision. Defined.

(* ------------------------------------------------------------------ *)
(** ** RGB keys: [packRGB] and the unpacking of the nearest-neighbour scan *)

(** Reduction of an integer to [uint32_t] (the [static_cast] and the
    wrap-around of unsigned shifts). *)
Definition u32 (z : Z) : Z := z mod 2 ^ 32.

(** [ThermalEngine::packRGB] (lines 22-26). *)
Definition packRGB (r g b : Z) : Z :=
  Z.lor (Z.lor (u32 (Z.shiftl (u32 r) 16)) (u32 (Z.shiftl (u32 g) 8))) (u32 b).

(** The unpacking of [getPixelTemperature] (lines 195-197). *)
Definition mapR (mapKey : Z) : Z := Z.land (Z.shiftr mapKey 16) 255.
Definition mapG (mapKey : Z) : Z := Z.land (Z.shiftr mapKey 8) 255.
Definition mapB (mapKey : Z) : Z := Z.land mapKey 255.

Definition unpackRGB (k : Z) : Z * Z * Z := (mapR k, mapG k, mapB k).

Definition channel_ok (c : Z) : Prop := 0 <= c <= 255.

(* ------------------------------------------------------------------ *)
(** ** Frames and the video source *)

(** A decoded [cv::Mat] with 3 channels of 8 bits: its dimensions and the
    [(b, g, r)] value of each pixel, addressed as [at(y, x)]. *)
Record Mat := mkMat {
  mrows : Z;
  mcols : Z;
  mpix : Z -> Z -> Z * Z * Z
}.

(** [cv::Mat()]: the empty matrix. *)
Definition Mat0 : Mat := mkMat 0 0 (fun _ _ => (0, 0, 0)).

(** [cv::Mat::empty()]: no element. *)
Definition mat_empty (m : Mat) : bool := (mrows m * mcols m =? 0).

(** [frame.at<cv::Vec3b>(y, x)]: [None] stands for an access outside the
    matrix, which is undefined behaviour in the C++ code. *)
Definition mat_at (m : Mat) (y x : Z) : option (Z * Z * Z) :=
  if (0 <=? y) && (y <? mrows m) && (0 <=? x) && (x <? mcols m)
  then Some (mpix m y x) else None.

(** A [cv::VideoCapture]: whether it is open, its read position
    ([CAP_PROP_POS_FRAMES]) and the result of decoding each frame index
    ([None] when the decoder fails on it). *)
Record VideoCapture := mkCap {
  opened : bool;
  pos : Z;
  decode : Z -> option Mat
}.

(** [cap.set(cv::CAP_PROP_POS_FRAMES, n)]. *)
Definition cap_set (c : VideoCapture) (n : Z) : VideoCapture :=
  mkCap (opened c) n (decode c).

(** [cap.read(image)]: the new capture, the returned flag and the new
    contents of [image].  As documented for OpenCV's [VideoCapture::read],
    when no frame can be grabbed or retrieved the output image is released
    (left empty) and [false] is returned; otherwise the result is
    [!image.empty()]. *)
Definition cap_read (c : VideoCapture) : VideoCapture * bool * Mat :=
  match decode c (pos c) with
  | Some f => (mkCap (opened c) (pos c + 1) (decode c), negb (mat_empty f), f)
  | None => (c, false, Mat0)
  end.

(* ------------------------------------------------------------------ *)
(** ** The engine state (the data members of [ThermalEngine], lines 12-19) *)

Record Engine := mkEngine {
  cap : VideoCapture;
  tempMapping : gmap Z Q;
  currentFrame : Mat;
  totalFrames : Z;
  fps : Q;
  frameWidth : Z;
  frameHeight : Z;
  lastFrameNumber : Z
}.

Definition set_tempMapping (st : Engine) (m : gmap Z Q) : Engine :=
  mkEngine (cap st) m (currentFrame st) (totalFrames st) (fps st)
    (frameWidth st) (frameHeight st) (lastFrameNumber st).

Definition set_cap_frame (st : Engine) (c : VideoCapture) (f : Mat) : Engine :=
  mkEngine c (tempMapping st) f (totalFrames st) (fps st)
    (frameWidth st) (frameHeight st) (lastFrameNumber st).

Definition set_lastFrameNumber (st : Engine) (n : Z) : Engine :=
  mkEngine (cap st) (tempMapping st) (currentFrame st) (totalFrames st)
    (fps st) (frameWidth st) (frameHeight st) n.

(** The frame cache is consistent: a non-empty [currentFrame] is the frame
    the capture decodes at [lastFrameNumber] (an invariant, not a function
    of the source). *)
Definition frame_cache_ok (st : Engine) : Prop :=
  mat_empty (currentFrame st) = false ->
  decode (cap st) (lastFrameNumber st) = Some (currentFrame st).

(** A table key that is the packing of the colour the resolver's scan
    unpacks from it (lines 195-197). *)
Definition key_canonical (k : Z) : Prop := packRGB (mapR k) (mapG k) (mapB k) = k.

(* ------------------------------------------------------------------ *)
(** ** [loadVideo] (lines 71-96) and the readiness test *)

(** A video file as [cv::VideoCapture::open] finds it: the properties it
    reports ([CAP_PROP_FRAME_COUNT], [CAP_PROP_FPS], [CAP_PROP_FRAME_WIDTH],
    [CAP_PROP_FRAME_HEIGHT]; the counts and sizes are whole numbers, so the
    [static_cast<int>] of lines 80-83 keeps them) and its decoder. *)
Record VideoFile := mkVideoFile {
  vf_frames : Z;
  vf_fps : Q;
  vf_width : Z;
  vf_height : Z;
  vf_decode : Z -> option Mat
}.

(** [cap.open(path)]: OpenCV releases the stream it holds before opening;
    [None] is a path that cannot be opened, which leaves the capture closed. *)
Definition cap_open (file : option VideoFile) : VideoCapture :=
  match file with
  | Some v => mkCap true 0 (vf_decode v)
  | None => mkCap false 0 (fun _ => None)
  end.

Definition set_cap (st : Engine) (c : VideoCapture) : Engine :=
  mkEngine c (tempMapping st) (currentFrame st) (totalFrames st) (fps st)
    (frameWidth st) (frameHeight st) (lastFrameNumber st).

(** [ThermalEngine::loadVideo]: the new engine state and the returned flag. *)
Definition loadVideo (st : Engine) (file : option VideoFile) : Engine * bool :=
  let st := set_cap st (cap_open file) in
  if negb (opened (cap st)) then (st, false) else
  match file with
  | Some v =>
      (mkEngine (cap st) (tempMapping st) (currentFrame st) (vf_frames v)
         (vf_fps v) (vf_width v) (vf_height v) (lastFrameNumber st), true)
  | None => (st, false)
  end.

(** [ThermalEngine::isVideoLoaded] (line 266). *)
Definition isVideoLoaded (st : Engine) : bool := opened (cap st).

(** The binding's [IsReady] (binding.cpp, lines 174-184). *)
Definition IsReady (st : Engine) : bool :=
  isVideoLoaded st && (0 <? totalFrames st).

(* ------------------------------------------------------------------ *)
(** ** [getLinePixels]: Bresenham's line algorithm (lines 29-60) *)

(** The bounds test of line 42. *)
Definition in_frame (frameWidth frameHeight x y : Z) : bool :=
  (0 <=? x) && (x <? frameWidth) && (0 <=? y) && (y <? frameHeight).

(** One pass through lines 48-56 on the loop state [(x, y, err)]. *)
Definition bres_step (dx dy sx sy : Z) (s : Z * Z * Z) : Z * Z * Z :=
  let '(x, y, err) := s in
  let e2 := 2 * err in
  let '(x, err) := if e2 >? - dy then (x + sx, err - dy) else (x, err) in
  let '(y, err) := if e2 <? dx then (y + sy, err + dx) else (y, err) in
  (x, y, err).

(** The [while (true)] loop of lines 40-57, run for at most [fuel]
    iterations; [None] when the bound is reached before the [break]. *)
Fixpoint bres_loop (frameWidth frameHeight x2 y2 dx dy sx sy : Z) (fuel : nat)
    (s : Z * Z * Z) : option (list (Z * Z)) :=
  match fuel with
  | O => None
  | S fuel' =>
      let '(x, y, _) := s in
      let here := if in_frame frameWidth frameHeight x y then [(x, y)] else [] in
      if (x =? x2) && (y =? y2) then Some here
      else option_map (app here)
             (bres_loop frameWidth frameHeight x2 y2 dx dy sx sy fuel'
                (bres_step dx dy sx sy s))
  end.

Definition bres_dx (x1 x2 : Z) : Z := Z.abs (x2 - x1).
Definition bres_sx (x1 x2 : Z) : Z := if x1 <? x2 then 1 else -1.

(** The initial loop state of lines 32-38. *)
Definition bres_init (x1 y1 x2 y2 : Z) : Z * Z * Z :=
  (x1, y1, bres_dx x1 x2 - bres_dx y1 y2).

(** The loop state after [kx] moves along x and [ky] moves along y (the
    invariant of the loop, not a function of the source). *)
Definition bres_state (x1 y1 x2 y2 kx ky : Z) : Z * Z * Z :=
  (x1 + bres_sx x1 x2 * kx, y1 + bres_sx y1 y2 * ky,
   bres_dx x1 x2 * (1 + ky) - bres_dx y1 y2 * (1 + kx)).

(** The error term of [bres_state]. *)
Definition bres_err (x1 y1 x2 y2 kx ky : Z) : Z :=
  bres_dx x1 x2 * (1 + ky) - bres_dx y1 y2 * (1 + kx).

(** A second loop invariant: the move counters stay in range and the error
    term keeps the major axis moving at every iteration. *)
Definition bres_good (x1 y1 x2 y2 kx ky : Z) : Prop :=
  let dx := bres_dx x1 x2 in
  let dy := bres_dx y1 y2 in
  let e := bres_err x1 y1 x2 y2 kx ky in
  0 <= kx <= dx /\ 0 <= ky <= dy /\ (dx = dy -> kx = ky) /\
  (dy <= dx -> dx - 2 * dy <= 2 * e) /\ (dx <= dy -> 2 * e <= 2 * dx - dy).

(** The move counter of the major axis. *)
Definition bres_major (x1 y1 x2 y2 kx ky : Z) : Z :=
  if bres_dx y1 y2 <=? bres_dx x1 x2 then kx else ky.

(** The loop invariant of the [int] run of [getLinePixels]: the state is a
    Bresenham state whose error term stays within twice the longer side. *)
Definition bres32_inv (x1 y1 x2 y2 : Z) (s : Z * Z * Z) : Prop :=
  let dx := bres_dx x1 x2 in
  let dy := bres_dx y1 y2 in
  exists kx ky, s = bres_state x1 y1 x2 y2 kx ky /\ 0 <= kx <= dx /\ 0 <= ky <= dy /\
    Z.abs (bres_err x1 y1 x2 y2 kx ky) <= 2 * Z.max dx dy.

(** Consecutive points of a list are 8-neighbours (or equal). *)
Definition steps_adjacent (l : list (Z * Z)) : Prop :=
  forall i p q, l !! i = Some p -> l !! S i = Some q ->
    Z.abs (q.1 - p.1) <= 1 /\ Z.abs (q.2 - p.2) <= 1.

(** [getLinePixels] over unbounded integers, the loop being given
    [dx + dy + 1] iterations ([getLinePixels_some] shows that this bound is
    never reached). The [int] arithmetic of the source is [getLinePixels32]
    below, which agrees with this one as long as no operation overflows. *)
Definition getLinePixels (frameWidth frameHeight x1 y1 x2 y2 : Z)
    : option (list (Z * Z)) :=
  let dx := bres_dx x1 x2 in
  let dy := bres_dx y1 y2 in
  bres_loop frameWidth frameHeight x2 y2 dx dy (bres_sx x1 x2) (bres_sx y1 y2)
    (Z.to_nat (dx + dy + 1)) (bres_init x1 y1 x2 y2).

(** A signed [int] operation: [None] when the exact result leaves the
    32-bit range, which is undefined behaviour in C++. *)
Definition int32_op (v : Z) : option Z :=
  if (- 2 ^ 31 <=? v) && (v <? 2 ^ 31) then Some v else None.

(** The outcome of [getLinePixels] with [int] arithmetic: it returns, or an
    operation overflows, or the iteration bound of the model runs out. *)
Inductive LineRun : Type :=
| LineReturns (l : list (Z * Z))
| LineOverflow
| LineOutOfFuel.

(** Lines 48-56 with every [int] operation checked ([- dy] cannot overflow
    since [dy >= 0]). *)
Definition bres_step32 (dx dy sx sy : Z) (s : Z * Z * Z) : option (Z * Z * Z) :=
  let '(x, y, err) := s in
  match int32_op (2 * err) with
  | None => None
  | Some e2 =>
      let xe := if e2 >? - dy then
                  match int32_op (err - dy), int32_op (x + sx) with
                  | Some err', Some x' => Some (x', err')
                  | _, _ => None
                  end
                else Some (x, err) in
      match xe with
      | None => None
      | Some (x, err) =>
          let ye := if e2 <? dx then
                      match int32_op (err + dx), int32_op (y + sy) with
                      | Some err', Some y' => Some (y', err')
                      | _, _ => None
                      end
                    else Some (y, err) in
          match ye with
          | None => None
          | Some (y, err) => Some (x, y, err)
          end
      end
  end.

(** The loop of lines 40-57 with [int] arithmetic. *)
Fixpoint bres_loop32 (frameWidth frameHeight x2 y2 dx dy sx sy : Z) (fuel : nat)
    (s : Z * Z * Z) : LineRun :=
  match fuel with
  | O => LineOutOfFuel
  | S fuel' =>
      let '(x, y, _) := s in
      let here := if in_frame frameWidth frameHeight x y then [(x, y)] else [] in
      if (x =? x2) && (y =? y2) then LineReturns here
      else match bres_step32 dx dy sx sy s with
           | None => LineOverflow
           | Some s' =>
               match bres_loop32 frameWidth frameHeight x2 y2 dx dy sx sy fuel' s' with
               | LineReturns l => LineReturns (here ++ l)
               | r => r
               end
           end
  end.

(** [getLinePixels] (lines 29-60) on [int] endpoints, with the [int]
    arithmetic of lines 32-36 ([abs] of [INT_MIN] overflows too). *)
Definition getLinePixels32 (frameWidth frameHeight x1 y1 x2 y2 : Z) : LineRun :=
  match int32_op (x2 - x1), int32_op (y2 - y1) with
  | Some ex, Some ey =>
      match int32_op (Z.abs ex), int32_op (Z.abs ey) with
      | Some dx, Some dy =>
          match int32_op (dx - dy) with
          | Some err =>
              bres_loop32 frameWidth frameHeight x2 y2 dx dy (bres_sx x1 x2)
                (bres_sx y1 y2) (Z.to_nat (dx + dy + 1)) (x1, y1, err)
          | None => LineOverflow
          end
      | _, _ => LineOverflow
      end
  | _, _ => LineOverflow
  end.

(* ------------------------------------------------------------------ *)
(** ** [getPixelTemperature]: exact lookup, then nearest-neighbour scan
       (lines 181-218) *)

(** The squared Euclidean distance between the query and a table key.
    The source compares [float distance = sqrt(pow(r - mapR, 2) + ...)]
    against [minDistance] and [10.0f].  For channel differences of at most
    a few hundred the squared distance is an integer below 2^18, on which
    [x |-> (float) sqrt(x)] is strictly increasing (consecutive square
    roots differ by more than 1e-3, the float spacing there is 3e-5) and
    [sqrt(x) < 10] iff [x < 100]; so comparing squared distances gives
    the same decisions. *)
Definition dist2 (r g b mapKey : Z) : Z :=
  (r - mapR mapKey) ^ 2 + (g - mapG mapKey) ^ 2 + (b - mapB mapKey) ^ 2.

(** The loop of lines 193-215; [minDistance = None] is the initial
    [std::numeric_limits<float>::max()], above every distance. *)
Fixpoint nearest_scan (r g b : Z) (entries : list (Z * Q))
    (minDistance : option Z) (closestTemp : Q) : Q :=
  match entries with
  | [] => closestTemp
  | (mapKey, temp) :: rest =>
      let distance := dist2 r g b mapKey in
      let closer := match minDistance with
                    | None => true
                    | Some m => distance <? m
                    end in
      if closer then
        if distance <? 100 then temp
        else nearest_scan r g b rest (Some distance) temp
      else nearest_scan r g b rest minDistance closestTemp
  end.

(** The squared RGB distance between the colours of two table keys. *)
Definition key_dist2 (k1 k2 : Z) : Z := dist2 (mapR k1) (mapG k1) (mapB k1) k2.

Section Resolver.

(** The iteration order of the [unordered_map]. *)
Context (iter_order : gmap Z Q -> list (Z * Q)).

(** [ThermalEngine::getPixelTemperature]. *)
Definition getPixelTemperature (tempMapping : gmap Z Q) (r g b : Z) : Q :=
  match tempMapping !! packRGB r g b with
  | Some temp => temp
  | None => nearest_scan r g b (iter_order tempMapping) None (-1)%Q
  end.

(* ------------------------------------------------------------------ *)
(** ** [getFrame] (lines 151-179) and [analyzeLine] (lines 220-259) *)

(** The clamping of line 159. *)
Definition clamp_frame (totalFrames frameNumber : Z) : Z :=
  Z.max 0 (Z.min frameNumber (totalFrames - 1)).

(** [ThermalEngine::getFrame]: the new engine state and the returned
    matrix. *)
Definition getFrame (st : Engine) (frameNumber : Z) : Engine * Mat :=
  if negb (opened (cap st)) then (st, Mat0) else
  let frameNumber := clamp_frame (totalFrames st) frameNumber in
  if negb (frameNumber =? lastFrameNumber st) then
    let c := cap_set (cap st) frameNumber in
    let '(c, ok, img) := cap_read c in
    let st := set_cap_frame st c img in
    if negb ok then (st, Mat0)
    else (set_lastFrameNumber st frameNumber, currentFrame st)
  else (st, currentFrame st).

(** The sample pushed for a resolved temperature (lines 246-251). *)
Definition sample_of (temp : Q) : Q := if Qle_bool 0 temp then temp else 0%Q.

(** The loop of lines 234-252; [None] if a pixel read falls outside the
    frame. *)
Fixpoint analyze_pixels (tempMapping : gmap Z Q) (frame : Mat)
    (linePixels : list (Z * Z)) : option (list Q) :=
  match linePixels with
  | [] => Some []
  | (x, y) :: rest =>
      match mat_at frame y x with
      | None => None
      | Some (b, g, r) =>
          let temp := getPixelTemperature tempMapping r g b in
          option_map (cons (sample_of temp))
            (analyze_pixels tempMapping frame rest)
      end
  end.

(** [ThermalEngine::analyzeLine]: the new engine state and the returned
    vector ([None] if the run leaves the defined behaviour of the code). *)
Definition analyzeLine (st : Engine) (frameNumber x1 y1 x2 y2 : Z)
    : Engine * option (list Q) :=
  let '(st, frame) := getFrame st frameNumber in
  if mat_empty frame then (st, Some []) else
  match getLinePixels (frameWidth st) (frameHeight st) x1 y1 x2 y2 with
  | None => (st, None)
  | Some linePixels => (st, analyze_pixels (tempMapping st) frame linePixels)
  end.

End Resolver.

(* ------------------------------------------------------------------ *)
(** ** [loadTempMapping] (lines 98-149) *)

Definition char_newline : ascii := "010"%char.
Definition char_comma : ascii := ","%char.

(** The cells produced by repeated [std::getline(stream, cell, sep)] on a
    stream holding [s]: a call succeeds when it extracts at least one
    character (the separator included), so no cell follows a final
    separator. *)
Fixpoint getline_all (sep : ascii) (s : string) (cur : string) (started : bool)
    : list string :=
  match s with
  | EmptyString => if started then [cur] else []
  | String c s' =>
      if Ascii.eqb c sep then cur :: getline_all sep s' EmptyString false
      else getline_all sep s' (cur ++ String c EmptyString)%string true
  end.

Definition getlines (sep : ascii) (s : string) : list string :=
  getline_all sep s EmptyString false.

(** [isspace] in the C locale. *)
Definition is_space (c : ascii) : bool :=
  let n := nat_of_ascii c in (n =? 32)%nat || ((9 <=? n)%nat && (n <=? 13)%nat).

Definition is_digit (c : ascii) : bool :=
  let n := nat_of_ascii c in (48 <=? n)%nat && (n <=? 57)%nat.

Fixpoint skip_ws (s : string) : string :=
  match s with
  | String c s' => if is_space c then skip_ws s' else s
  | EmptyString => s
  end.

(** Reads a run of decimal digits: value, number of digits, rest. *)
Fixpoint read_digits (s : string) (acc : Z) (n : nat) : Z * nat * string :=
  match s with
  | String c s' =>
      if is_digit c
      then read_digits s' (10 * acc + Z.of_nat (nat_of_ascii c - 48)) (S n)
      else (acc, n, s)
  | EmptyString => (acc, n, s)
  end.

(** An optional sign: whether it is [-], and the rest. *)
Definition read_sign (s : string) : bool * string :=
  match s with
  | String c s' =>
      if Ascii.eqb c "-"%char then (true, s')
      else if Ascii.eqb c "+"%char then (false, s') else (false, s)
  | EmptyString => (false, s)
  end.

(** [std::stoi] (base 10, through [strtol]): leading white space, an
    optional sign, at least one digit, trailing characters ignored; [None]
    where it throws [std::invalid_argument] (no digit) or
    [std::out_of_range] (value outside [int]). *)
Definition stoi (s : string) : option Z :=
  let '(neg, s) := read_sign (skip_ws s) in
  let '(v, n, _) := read_digits s 0 0 in
  if (n =? 0)%nat then None else
  let v := if neg then - v else v in
  if (- 2 ^ 31 <=? v) && (v <? 2 ^ 31) then Some v else None.

(** The RGB validation of line 128. *)
Definition rgb_valid (r g b : Z) : bool :=
  (0 <=? r) && (r <=? 255) && (0 <=? g) && (g <=? 255) && (0 <=? b) && (b <=? 255).

Section Loader.

(** [std::stof]; [None] where it throws. *)
Context (stof : string -> option Q).

(** Lines 122-125: the conversions of one row, [None] when one of them
    throws (the row is then skipped by the [catch] of line 133). *)
Definition parse_row (row : list string) : option (Z * Z * Z * Q) :=
  match stoi (nth 2 row EmptyString) with None => None | Some r =>
  match stoi (nth 3 row EmptyString) with None => None | Some g =>
  match stoi (nth 4 row EmptyString) with None => None | Some b =>
  match stof (nth 5 row EmptyString) with None => None | Some temp =>
    Some (r, g, b, temp)
  end end end end.

(** The loop of lines 110-138 over the remaining lines, with the table
    and [count]. *)
Fixpoint load_rows (lines : list string) (tempMapping : gmap Z Q) (count : Z)
    : gmap Z Q * Z :=
  match lines with
  | [] => (tempMapping, count)
  | line :: rest =>
      let row := getlines char_comma line in
      if (6 <=? length row)%nat then
        match parse_row row with
        | Some (r, g, b, temp) =>
            if rgb_valid r g b
            then load_rows rest (<[packRGB r g b := temp]> tempMapping) (count + 1)
            else load_rows rest tempMapping count
        | None => load_rows rest tempMapping count
        end
      else load_rows rest tempMapping count
  end.

(** [ThermalEngine::loadTempMapping]: [file] is the contents of the file,
    [None] when it cannot be opened.  The first line is the header. *)
Definition loadTempMapping (st : Engine) (file : option string) : Engine * bool :=
  match file with
  | None => (st, false)
  | Some contents =>
      let lines := getlines char_newline contents in
      let '(m, count) := load_rows (tl lines) (tempMapping st) 0 in
      (set_tempMapping st m, 0 <? count)
  end.

(** The key-temperature pair that a data line contributes, if any (a
    row-by-row reading of the same conditions). *)
Definition row_entry (line : string) : option (Z * Q) :=
  let row := getlines char_comma line in
  if (6 <=? length row)%nat then
    match parse_row row with
    | Some (r, g, b, temp) =>
        if rgb_valid r g b then Some (packRGB r g b, temp) else None
    | None => None
    end
  else None.

(** The pairs parsed from a file, in file order (header skipped). *)
Definition parsed_entries (contents : string) : list (Z * Q) :=
  omap row_entry (tl (getlines char_newline contents)).

End Loader.

(** A decimal reading of [std::stof] (sign, digits, optional fraction),
    used to run the loader on concrete files. *)
Definition stof_decimal (s : string) : option Q :=
  let '(neg, s) := read_sign (skip_ws s) in
  let '(ip, n1, s) := read_digits s 0 0 in
  let '(fp, n2) :=
    match s with
    | String c s' =>
        if Ascii.eqb c "."%char
        then let '(fp, n2, _) := read_digits s' 0 0 in (fp, n2)
        else (0, 0%nat)
    | EmptyString => (0, 0%nat)
    end in
  if (n1 + n2 =? 0)%nat then None else
  let v := Qred (inject_Z (ip * 10 ^ Z.of_nat n2 + fp) / inject_Z (10 ^ Z.of_nat n2)) in
  Some (if neg then Qopp v else v).

(** Inserting one parsed pair into the table ([tempMapping[key] = temp]). *)
Definition insert_entry (m : gmap Z Q) (e : Z * Q) : gmap Z Q := <[e.1 := e.2]> m.

(* ------------------------------------------------------------------ *)
(** ** The Node.js binding (binding.cpp) *)

(** The JavaScript values passed to the binding.  A JavaScript number is
    a finite double, hence a rational; NaN and the infinities are left out
    of the model. *)
Inductive JSValue :=
| JSNumber (q : Q)
| JSString (s : string)
| JSBool (b : bool)
| JSNull
| JSUndefined.

(** The errors the binding throws.  binding.gyp defines
    [NAPI_DISABLE_CPP_EXCEPTIONS], so [Napi::Error] is not a
    [std::exception] and the [catch (const std::exception&)] clauses of
    the binding do not intercept these errors; what Node.js then does with
    them is not modelled. *)
Inductive NapiError :=
| TypeError (msg : string)
| RangeError (msg : string).

(** The outcome of a binding function: a value, a thrown error, or
    undefined behaviour of the C++ code. *)
Inductive NapiResult (A : Type) :=
| NapiOk (a : A)
| NapiThrow (e : NapiError)
| NapiUB.
Arguments NapiOk {A} a.
Arguments NapiThrow {A} e.
Arguments NapiUB {A}.

Definition napi_bind {A B} (m : NapiResult A) (f : A -> NapiResult B) : NapiResult B :=
  match m with
  | NapiOk a => f a
  | NapiThrow e => NapiThrow e
  | NapiUB => NapiUB
  end.

Notation "'let!' x := m 'in' f" := (napi_bind m (fun x => f))
  (at level 200, x name, m at level 100, f at level 200).

(** [GetNumberParam] (lines 9-14). *)
Definition GetNumberParam (args : list JSValue) (index : nat) (paramName : string)
    : NapiResult Q :=
  match nth_error args index with
  | Some (JSNumber d) => NapiOk d
  | _ => NapiThrow (TypeError (paramName ++ " must be a number")%string)
  end.

(** [static_cast<int>] of a double: truncation toward zero, undefined
    behaviour when the result is not an [int]. *)
Definition double_to_int (d : Q) : option Z :=
  let z := Z.quot (Qnum d) (Zpos (Qden d)) in
  if (- 2 ^ 31 <=? z) && (z <? 2 ^ 31) then Some z else None.

Definition int_param (args : list JSValue) (index : nat) (paramName : string)
    : NapiResult Z :=
  let! d := GetNumberParam args index paramName in
  match double_to_int d with Some z => NapiOk z | None => NapiUB end.

(** The binding's [AnalyzeLine] (lines 81-116): the new engine state and
    the outcome.  The [std::vector<float>] becomes a JavaScript array of
    the same numbers. *)
Definition AnalyzeLine (iter_order : gmap Z Q -> list (Z * Q)) (st : Engine)
    (args : list JSValue) : Engine * NapiResult (list Q) :=
  if (length args <? 5)%nat then
    (st, NapiThrow (TypeError "Expected 5 arguments: frameNum, x1, y1, x2, y2"))
  else
  match (let! frameNum := int_param args 0 "frameNum" in
         let! x1 := int_param args 1 "x1" in
         let! y1 := int_param args 2 "y1" in
         let! x2 := int_param args 3 "x2" in
         let! y2 := int_param args 4 "y2" in
         NapiOk (frameNum, x1, y1, x2, y2)) with
  | NapiThrow e => (st, NapiThrow e)
  | NapiUB => (st, NapiUB)
  | NapiOk (frameNum, x1, y1, x2, y2) =>
      if (frameNum <? 0) || (totalFrames st <=? frameNum) then
        (st, NapiThrow (RangeError "Frame number out of range"))
      else
        let '(st, temperatures) := analyzeLine iter_order st frameNum x1 y1 x2 y2 in
        (st, match temperatures with Some v => NapiOk v | None => NapiUB end)
  end.

(** The binding's [GetPixelTemperature] (lines 142-171); [None] is the
    JavaScript [null]. *)
Definition GetPixelTemperature (iter_order : gmap Z Q -> list (Z * Q)) (st : Engine)
    (args : list JSValue) : NapiResult (option Q) :=
  if (length args <? 3)%nat then
    NapiThrow (TypeError "Expected 3 arguments: r, g, b")
  else
  let! r := int_param args 0 "r" in
  let! g := int_param args 1 "g" in
  let! b := int_param args 2 "b" in
  if (r <? 0) || (255 <? r) || (g <? 0) || (255 <? g) || (b <? 0) || (255 <? b) then
    NapiThrow (RangeError "RGB values must be between 0 and 255")
  else
  let temperature := getPixelTemperature iter_order (tempMapping st) r g b in
  if negb (Qle_bool 0 temperature) then NapiOk None else NapiOk (Some temperature).

(* ------------------------------------------------------------------ *)
(** ** The server's validation of a line-analysis request
       (src/unnamed/part_000, [handleAnalyzeLine], lines 160-207) *)

(** The coordinates of a line of the request. *)
Record LineRequest := mkLineRequest {
  req_x1 : JSValue;
  req_y1 : JSValue;
  req_x2 : JSValue;
  req_y2 : JSValue
}.

(** [Math.max(0, Math.min(v, hi))] on finite numbers. *)
Definition js_clamp (v hi : Q) : Q := Qmax 0 (Qmin v hi).

(** [validateLine] (lines 183-196): [None] where it throws, otherwise the
    clamped coordinates it writes back into the request. *)
Definition validateLine (width height : Z) (line : LineRequest) : option (Q * Q * Q * Q) :=
  match req_x1 line, req_y1 line, req_x2 line, req_y2 line with
  | JSNumber x1, JSNumber y1, JSNumber x2, JSNumber y2 =>
      Some (js_clamp x1 (inject_Z (width - 1)), js_clamp y1 (inject_Z (height - 1)),
            js_clamp x2 (inject_Z (width - 1)), js_clamp y2 (inject_Z (height - 1)))
  | _, _, _, _ => None
  end.

(** Lines 172-199 on [videoInfo] (frames, width, height): [None] where the
    handler throws, otherwise the frame number and the two clamped lines.
    A missing line is [None]. *)
Definition validate_analyze_request (frames width height : Z) (frameNum : JSValue)
    (line1 line2 : option LineRequest) : option (Q * (Q * Q * Q * Q) * (Q * Q * Q * Q)) :=
  match frameNum with
  | JSNumber f =>
      if negb (Qle_bool 0 f) || Qle_bool (inject_Z frames) f then None else
      match line1, line2 with
      | Some l1, Some l2 =>
          match validateLine width height l1, validateLine width height l2 with
          | Some c1, Some c2 => Some (f, c1, c2)
          | _, _ => None
          end
      | _, _ => None
      end
  | _ => None
  end.

(** The arguments of [thermalEngine.analyzeLine] at lines 206-207. *)
Definition analyze_args (frameNum : Q) (c : Q * Q * Q * Q) : list JSValue :=
  let '(x1, y1, x2, y2) := c in
  [JSNumber frameNum; JSNumber x1; JSNumber y1; JSNumber x2; JSNumber y2].

(** [getVideoInfo] (thermal_engine.cpp, lines 278-285) as the server reads
    it: frames, width and height. *)
Definition video_dims (st : Engine) : Z * Z * Z :=
  (totalFrames st, frameWidth st, frameHeight st).

(* ------------------------------------------------------------------ *)
(** ** The base64 encoder of [GetFrameBase64] (binding.cpp, lines 206-229) *)

Definition b64_chars : string :=
  "ABCDEFGHIJKLMNOPQRSTUVWXYZabcdefghijklmnopqrstuvwxyz0123456789+/".

(** [chars[n]] for [0 <= n < 64]. *)
Definition b64_char (n : Z) : ascii :=
  match String.get (Z.to_nat n) b64_chars with Some c => c | None => "="%char end.

(** The [uint32_t val] of lines 213-216 for the group starting at [i]: the
    loop stops at the end of the buffer, so a missing byte adds nothing;
    [buffer[i + j]] is promoted to [int] before the shift. *)
Definition b64_val (buffer : list Z) (len i : Z) : Z :=
  let byte j := if i + j <? len
                then Z.shiftl (nth (Z.to_nat (i + j)) buffer 0) (16 - 8 * j) else 0 in
  Z.lor (Z.lor (Z.lor 0 (byte 0)) (byte 1)) (byte 2).

(** The four characters of lines 218-224. *)
Definition b64_group (buffer : list Z) (len i : Z) : string :=
  let val := b64_val buffer len i in
  let out j := if i * 4 / 3 + j <? (len * 4 + 2) / 3
               then b64_char (Z.land (Z.shiftr val (18 - 6 * j)) 63) else "="%char in
  String (out 0) (String (out 1) (String (out 2) (String (out 3) EmptyString))).

(** The loop of line 212 from index [i]; [fuel] bounds the iterations. *)
Fixpoint b64_loop (buffer : list Z) (len i : Z) (fuel : nat) : string :=
  match fuel with
  | O => EmptyString
  | S fuel' =>
      if i <? len then (b64_group buffer len i ++ b64_loop buffer len (i + 3) fuel')%string
      else EmptyString
  end.

Definition b64_encode (buffer : list Z) : string :=
  b64_loop buffer (Z.of_nat (length buffer)) 0 (length buffer).

(** The binding's [GetFrameBase64] (lines 187-236) once the argument is
    checked: [None] is [null] (empty frame); [imencode] is the JPEG
    encoder of OpenCV. *)
Definition GetFrameBase64 (imencode : Mat -> list Z) (st : Engine) (frameNum : Z)
    : Engine * option string :=
  let '(st, frame) := getFrame st frameNum in
  if mat_empty frame then (st, None)
  else (st, Some ("data:image/jpeg;base64," ++ b64_encode (imencode frame))%string).

(** A base64 decoder following RFC 4648, written from the standard and not
    from the code, to state what the encoder computes. *)
Definition b64_index (c : ascii) : option Z :=
  let fix go (s : string) (n : Z) :=
    match s with
    | EmptyString => None
    | String c' s' => if Ascii.eqb c c' then Some n else go s' (n + 1)
    end in
  go b64_chars 0.

Fixpoint b64_decode (s : list ascii) : option (list Z) :=
  match s with
  | [] => Some []
  | c0 :: c1 :: c2 :: c3 :: rest =>
      match b64_index c0, b64_index c1 with
      | Some i0, Some i1 =>
          if Ascii.eqb c2 "="%char then
            if Ascii.eqb c3 "="%char && (length rest =? 0)%nat
            then Some [i0 * 4 + i1 / 16] else None
          else
          match b64_index c2 with
          | None => None
          | Some i2 =>
              if Ascii.eqb c3 "="%char then
                if (length rest =? 0)%nat
                then Some [i0 * 4 + i1 / 16; (i1 mod 16) * 16 + i2 / 4] else None
              else
              match b64_index c3 with
              | None => None
              | Some i3 =>
                  option_map (fun l => i0 * 4 + i1 / 16 :: (i1 mod 16) * 16 + i2 / 4 ::
                                       (i2 mod 4) * 64 + i3 :: l) (b64_decode rest)
              end
          end
      | _, _ => None
      end
  | _ => None
  end.

(* ------------------------------------------------------------------ *)
(** ** Concrete inputs *)

(** The calibration table of the scenario of the specification. *)
Definition table_red_green : gmap Z Q :=
  {[ packRGB 255 0 0 := 1000%Q; packRGB 0 255 0 := 500%Q ]}.


(** A 10 x 10 frame whose top row is pure red (BGR order), black elsewhere. *)
Definition frame_red_top : Mat :=
  mkMat 10 10 (fun y x => if y =? 0 then (0, 0, 255) else (0, 0, 0)).

(** An open video of 10 frames, all decoding to [frame_red_top] except
    frame 5, on which the decoder fails. *)
Definition video_demo : VideoCapture :=
  mkCap true 0 (fun n => if n =? 5 then None else Some frame_red_top).

(** An engine just after [loadVideo] (nothing decoded yet). *)
Definition engine_fresh (tbl : gmap Z Q) : Engine :=
  mkEngine video_demo tbl Mat0 10 25 10 10 (-1).

(** An engine that has served frame 2 and cached it. *)
Definition engine_cached : Engine :=
  mkEngine (mkCap true 3 (decode video_demo)) table_red_green frame_red_top
    10 25 10 10 2.

(** A second video: four black 10 x 10 frames. *)
Definition frame_black : Mat := mkMat 10 10 (fun _ _ => (0, 0, 0)).
Definition video_black : VideoFile :=
  mkVideoFile 4 30 10 10 (fun _ => Some frame_black).

(** A line-analysis request for frame 9.5: the first line reaches outside
    the frame, the second is a single point. *)
Definition request_line_a : LineRequest :=
  mkLineRequest (JSNumber (-5)) (JSNumber 3) (JSNumber 100) (JSNumber (29 # 2)).
Definition request_line_b : LineRequest :=
  mkLineRequest (JSNumber 1) (JSNumber 1) (JSNumber 1) (JSNumber 1).

(** A table holding one entry for pure blue. *)
Definition table_blue : gmap Z Q := {[ packRGB 0 0 255 := 7%Q ]}.

(** A calibration file with a header and one row, for the colour (1,2,3). *)
Definition csv_one_row : string :=
  "X,Y,R,G,B,Temperature_C
0,0,1,2,3,20".


(* ------------------------------------------------------------------ *)
(** ** Proofs *)

Section PackProofs.

Lemma u32_small z : 0 <= z < 2 ^ 32 -> u32 z = z.
Proof. intros H. unfold u32. apply Z.mod_small; lia. Qed.

Lemma land_255_small z : 0 <= z <= 255 -> Z.land z 255 = z.
Proof.
  intros H. change 255 with (Z.ones 8). rewrite Z.land_ones by lia.
  apply Z.mod_small. change (2 ^ 8) with 256. lia.
Qed.

Lemma shiftr_small z n : 0 <= n -> 0 <= z < 2 ^ n -> Z.shiftr z n = 0.
Proof.
  intros Hn Hz. rewrite Z.shiftr_div_pow2 by lia. apply Z.div_small; lia.
Qed.

Lemma packRGB_unwrapped r g b :
  channel_ok r -> channel_ok g -> channel_ok b ->
  packRGB r g b = Z.lor (Z.lor (Z.shiftl r 16) (Z.shiftl g 8)) b.
Proof.
  unfold channel_ok, packRGB; intros Hr Hg Hb.
  rewrite (u32_small r), (u32_small g), (u32_small b) by lia.
  rewrite !Z.shiftl_mul_pow2 by lia.
  rewrite (u32_small (r * 2 ^ 16)), (u32_small (g * 2 ^ 8)); [reflexivity| |];
    change (2 ^ 16) with 65536; change (2 ^ 8) with 256;
    change (2 ^ 32) with 4294967296; lia.
Qed.

End PackProofs.

Section PackProofs2.

Lemma land_shiftl_255 z n : 8 <= n -> Z.land (Z.shiftl z n) 255 = 0.
Proof.
  intros Hn. change 255 with (Z.ones 8).
  rewrite Z.land_ones, Z.shiftl_mul_pow2 by lia.
  replace (2 ^ n) with (2 ^ (n - 8) * 2 ^ 8)
    by (rewrite <- Z.pow_add_r by lia; f_equal; lia).
  rewrite Z.mul_assoc. apply Z.mod_mul. lia.
Qed.

End PackProofs2.

(** Claim C8: for all [r], [g], [b] in [0,255], unpacking the key
    [packRGB r g b] with the shifts and masks of the resolver's scan gives
    back exactly [(r, g, b)]. *)
Theorem unpack_packRGB r g b :
  channel_ok r -> channel_ok g -> channel_ok b ->
  unpackRGB (packRGB r g b) = (r, g, b).
Proof.
  intros Hr Hg Hb. rewrite packRGB_unwrapped by assumption.
  unfold channel_ok in *. unfold unpackRGB, mapR, mapG, mapB.
  rewrite !Z.shiftr_lor, !Z.land_lor_distr_l.
  rewrite (Z.shiftr_shiftl_l r 16 16), (Z.shiftr_shiftl_r g 8 16),
    (Z.shiftr_shiftl_l r 16 8), (Z.shiftr_shiftl_l g 8 8) by lia.
  change (16 - 8) with 8. change (8 - 16) with (-8).
  rewrite !Z.sub_diag, !Z.shiftl_0_r.
  rewrite (shiftr_small g 8), (shiftr_small b 16), (shiftr_small b 8)
    by (change (2 ^ 8) with 256 || change (2 ^ 16) with 65536; lia).
  rewrite !land_shiftl_255 by lia.
  rewrite !land_255_small by lia. rewrite ?Z.land_0_l, ?Z.lor_0_r, ?Z.lor_0_l.
  reflexivity.
Qed.

(** Witness for C8 at the colour (254, 1, 1). *)
Lemma unpack_packRGB_witness :
  channel_ok 254 /\ channel_ok 1 /\ channel_ok 1 /\
  unpackRGB (packRGB 254 1 1) = (254, 1, 1).
Proof.
  unfold channel_ok. split; [lia|]. split; [lia|]. split; [lia|].
  apply unpack_packRGB; unfold channel_ok; lia.
Defined.

(* ------------------------------------------------------------------ *)
(** ** The rasterizer: loop invariant and termination *)

Section Bresenham.

Variables x1 y1 x2 y2 : Z.

Local Abbreviation dx := (bres_dx x1 x2).
Local Abbreviation dy := (bres_dx y1 y2).
Local Abbreviation sx := (bres_sx x1 x2).
Local Abbreviation sy := (bres_sx y1 y2).
Local Abbreviation bres_state := (bres_state x1 y1 x2 y2).

Lemma bres_sx_cases a c : (bres_sx a c = 1 /\ a < c) \/ (bres_sx a c = -1 /\ c <= a).
Proof. unfold bres_sx. destruct (Z.ltb_spec a c); lia. Qed.

Lemma bres_endpoint a c : a + bres_sx a c * bres_dx a c = c.
Proof. unfold bres_dx. destruct (bres_sx_cases a c) as [[-> ?]|[-> ?]]; lia. Qed.

Lemma bres_dx_nonneg a c : 0 <= bres_dx a c.
Proof. unfold bres_dx. lia. Qed.

Lemma bres_init_state : bres_init x1 y1 x2 y2 = bres_state 0 0.
Proof. unfold bres_init, bres_state. f_equal; [f_equal|]; lia. Qed.

Lemma bres_at_end kx ky :
  0 <= kx <= dx -> 0 <= ky <= dy ->
  ((x1 + sx * kx =? x2) && (y1 + sy * ky =? y2)) = (kx =? dx) && (ky =? dy).
Proof.
  intros Hx Hy.
  pose proof (bres_endpoint x1 x2). pose proof (bres_endpoint y1 y2).
  destruct (bres_sx_cases x1 x2) as [[Ex _]|[Ex _]];
  destruct (bres_sx_cases y1 y2) as [[Ey _]|[Ey _]];
  rewrite Ex, Ey in *; apply Bool.eq_iff_eq_true;
  rewrite !Bool.andb_true_iff, !Z.eqb_eq; lia.
Qed.

(** One iteration moves along at least one axis and never past [p2]. *)
Lemma bres_step_state kx ky :
  0 <= kx <= dx -> 0 <= ky <= dy -> ~ (kx = dx /\ ky = dy) ->
  exists kx' ky',
    bres_step dx dy sx sy (bres_state kx ky) = bres_state kx' ky' /\
    kx <= kx' <= dx /\ ky <= ky' <= dy /\ kx + ky < kx' + ky'.
Proof.
  intros Hx Hy Hend. unfold bres_step, bres_state.
  pose proof (bres_dx_nonneg x1 x2). pose proof (bres_dx_nonneg y1 y2).
  set (E := dx * (1 + ky) - dy * (1 + kx)).
  destruct (Z.gtb_spec (2 * E) (- dy)) as [Hgx|Hgx];
  destruct (Z.ltb_spec (2 * E) dx) as [Hly|Hly].
  - exists (kx + 1), (ky + 1). split.
    + unfold E. f_equal; [f_equal|]; ring.
    + assert (kx < dx).
      { destruct (Z.eq_dec kx dx) as [->|]; [|lia].
        assert (ky < dy) by lia.
        assert (dx * ky <= dx * (dy - 1)) by (apply Z.mul_le_mono_nonneg_l; lia).
        unfold E in Hgx. nia. }
      assert (ky < dy).
      { destruct (Z.eq_dec ky dy) as [->|]; [|lia].
        assert (dy * kx <= dy * (dx - 1)) by (apply Z.mul_le_mono_nonneg_l; lia).
        unfold E in Hly. nia. }
      lia.
  - exists (kx + 1), ky. split.
    + unfold E. f_equal; [f_equal|]; ring.
    + assert (kx < dx).
      { destruct (Z.eq_dec kx dx) as [->|]; [|lia].
        assert (ky < dy) by lia.
        assert (dx * ky <= dx * (dy - 1)) by (apply Z.mul_le_mono_nonneg_l; lia).
        unfold E in Hgx. nia. }
      lia.
  - exists kx, (ky + 1). split.
    + unfold E. f_equal; [f_equal|]; ring.
    + assert (ky < dy).
      { destruct (Z.eq_dec ky dy) as [->|]; [|lia].
        assert (kx < dx) by lia.
        assert (dy * kx <= dy * (dx - 1)) by (apply Z.mul_le_mono_nonneg_l; lia).
        unfold E in Hly. nia. }
      lia.
  - exfalso. assert (dx = 0 /\ dy = 0) as [Ex Ey] by lia.
    apply Hend. lia.
Qed.

(** Repeating the step from [bres_state kx ky] reaches [bres_state dx dy]. *)
Lemma bres_iter_reaches_end (m : nat) kx ky :
  0 <= kx <= dx -> 0 <= ky <= dy -> (dx - kx) + (dy - ky) <= Z.of_nat m ->
  exists n, (n <= m)%nat /\
    Nat.iter n (bres_step dx dy sx sy) (bres_state kx ky) = bres_state dx dy.
Proof.
  revert kx ky. induction m as [|m IH]; intros kx ky Hx Hy Hm.
  - exists 0%nat. split; [lia|]. simpl. do 2 f_equal; lia.
  - destruct (Z.eq_dec kx dx) as [->|Hkx]; [destruct (Z.eq_dec ky dy) as [->|Hky]|].
    + exists 0%nat. split; [lia|]. reflexivity.
    + destruct (bres_step_state dx ky) as (kx' & ky' & Hs & ? & ? & ?);
        [lia|lia|lia|].
      destruct (IH kx' ky') as (n & Hn & Hit); [lia|lia|lia|].
      exists (S n). split; [lia|]. rewrite Nat.iter_succ_r, Hs. exact Hit.
    + destruct (bres_step_state kx ky) as (kx' & ky' & Hs & ? & ? & ?);
        [lia|lia|lia|].
      destruct (IH kx' ky') as (n & Hn & Hit); [lia|lia|lia|].
      exists (S n). split; [lia|]. rewrite Nat.iter_succ_r, Hs. exact Hit.
Qed.

Variables frameWidth frameHeight : Z.

(** One unfolding of the loop on an invariant state. *)
Lemma bres_loop_state_S (n : nat) kx ky :
  0 <= kx <= dx -> 0 <= ky <= dy ->
  bres_loop frameWidth frameHeight x2 y2 dx dy sx sy (S n) (bres_state kx ky) =
  let here := if in_frame frameWidth frameHeight (x1 + sx * kx) (y1 + sy * ky)
              then [(x1 + sx * kx, y1 + sy * ky)] else [] in
  if (kx =? dx) && (ky =? dy) then Some here
  else option_map (app here)
         (bres_loop frameWidth frameHeight x2 y2 dx dy sx sy n
            (bres_step dx dy sx sy (bres_state kx ky))).
Proof.
  intros Hx Hy. rewrite <- (bres_at_end kx ky Hx Hy). reflexivity.
Qed.

(** With more iterations than moves left, the loop reaches its [break]. *)
Lemma bres_loop_some (n : nat) kx ky :
  0 <= kx <= dx -> 0 <= ky <= dy -> (dx - kx) + (dy - ky) < Z.of_nat n ->
  exists l,
    bres_loop frameWidth frameHeight x2 y2 dx dy sx sy n (bres_state kx ky) = Some l.
Proof.
  revert kx ky. induction n as [|n IH]; intros kx ky Hx Hy Hn; [lia|].
  rewrite bres_loop_state_S by assumption. cbv zeta.
  destruct ((kx =? dx) && (ky =? dy)) eqn:Hend; [eexists; reflexivity|].
  destruct (bres_step_state kx ky) as (kx' & ky' & Hs & ? & ? & ?);
    [lia|lia| rewrite Bool.andb_false_iff, !Z.eqb_neq in Hend; lia |].
  rewrite Hs. destruct (IH kx' ky') as [l Hl]; [lia|lia|lia|].
  rewrite Hl. eexists; reflexivity.
Qed.

End Bresenham.

Section BresenhamOutput.

Variables frameWidth frameHeight x2 y2 dx dy sx sy : Z.

(** Every emitted point passed the bounds test. *)
Lemma bres_loop_in_frame (n : nat) s l :
  bres_loop frameWidth frameHeight x2 y2 dx dy sx sy n s = Some l ->
  Forall (fun p => in_frame frameWidth frameHeight p.1 p.2 = true) l.
Proof.
  revert s l. induction n as [|n IH]; intros [[x y] err] l H; [discriminate|].
  simpl in H.
  destruct (in_frame frameWidth frameHeight x y) eqn:Hin;
  destruct ((x =? x2) && (y =? y2)).
  - injection H as <-. constructor; [exact Hin|constructor].
  - destruct (bres_loop _ _ _ _ _ _ _ _ n _) eqn:Hl; [|discriminate].
    injection H as <-. constructor; [exact Hin|]. exact (IH _ _ Hl).
  - injection H as <-. constructor.
  - destruct (bres_loop _ _ _ _ _ _ _ _ n _) eqn:Hl; [|discriminate].
    injection H as <-. exact (IH _ _ Hl).
Qed.

(** When [p2] is in the frame, it is the last emitted point. *)
Lemma bres_loop_last (n : nat) s l :
  in_frame frameWidth frameHeight x2 y2 = true ->
  bres_loop frameWidth frameHeight x2 y2 dx dy sx sy n s = Some l ->
  last l = Some (x2, y2).
Proof.
  intros Hp2. revert s l.
  induction n as [|n IH]; intros [[x y] err] l H; [discriminate|].
  simpl in H.
  destruct ((x =? x2) && (y =? y2)) eqn:Hend.
  - apply Bool.andb_true_iff in Hend as [Ex Ey].
    apply Z.eqb_eq in Ex, Ey. subst x y.
    rewrite Hp2 in H. injection H as <-. reflexivity.
  - destruct (bres_loop _ _ _ _ _ _ _ _ n _) eqn:Hl; [|discriminate].
    injection H as <-. rewrite last_app, (IH _ _ Hl). reflexivity.
Qed.

End BresenhamOutput.

Section LinePixels.

Variables frameWidth frameHeight x1 y1 x2 y2 : Z.

Lemma getLinePixels_unfold :
  getLinePixels frameWidth frameHeight x1 y1 x2 y2 =
  bres_loop frameWidth frameHeight x2 y2 (bres_dx x1 x2) (bres_dx y1 y2)
    (bres_sx x1 x2) (bres_sx y1 y2)
    (S (Z.to_nat (bres_dx x1 x2 + bres_dx y1 y2))) (bres_state x1 y1 x2 y2 0 0).
Proof.
  unfold getLinePixels. rewrite bres_init_state.
  pose proof (bres_dx_nonneg x1 x2). pose proof (bres_dx_nonneg y1 y2).
  replace (Z.to_nat (bres_dx x1 x2 + bres_dx y1 y2 + 1))
    with (S (Z.to_nat (bres_dx x1 x2 + bres_dx y1 y2))) by lia.
  reflexivity.
Qed.

Lemma getLinePixels_some :
  exists l, getLinePixels frameWidth frameHeight x1 y1 x2 y2 = Some l.
Proof.
  rewrite getLinePixels_unfold.
  pose proof (bres_dx_nonneg x1 x2). pose proof (bres_dx_nonneg y1 y2).
  apply bres_loop_some; lia.
Qed.

Lemma getLinePixels_in_frame l :
  getLinePixels frameWidth frameHeight x1 y1 x2 y2 = Some l ->
  Forall (fun p => 0 <= p.1 < frameWidth /\ 0 <= p.2 < frameHeight) l.
Proof.
  unfold getLinePixels. intros H.
  apply bres_loop_in_frame in H.
  eapply Forall_impl; [exact H|]. intros [x y]. unfold in_frame. simpl.
  rewrite !Bool.andb_true_iff, !Z.leb_le, !Z.ltb_lt. lia.
Qed.

End LinePixels.

(** Claim C6: when both endpoints lie in [0,frameWidth) x [0,frameHeight),
    the rasterized sequence is non-empty, starts at [p1] and ends at [p2];
    when [p1 = p2] it is exactly [[p1]]. *)
Theorem getLinePixels_endpoints frameWidth frameHeight x1 y1 x2 y2 :
  0 <= x1 < frameWidth -> 0 <= y1 < frameHeight ->
  0 <= x2 < frameWidth -> 0 <= y2 < frameHeight ->
  exists l, getLinePixels frameWidth frameHeight x1 y1 x2 y2 = Some l /\
    l <> [] /\ head l = Some (x1, y1) /\ last l = Some (x2, y2) /\
    ((x1, y1) = (x2, y2) -> l = [(x1, y1)]).
Proof.
  intros Hx1 Hy1 Hx2 Hy2.
  destruct (getLinePixels_some frameWidth frameHeight x1 y1 x2 y2) as [l Hl].
  exists l. split; [exact Hl|].
  assert (Hin1 : in_frame frameWidth frameHeight x1 y1 = true).
  { unfold in_frame. rewrite !Bool.andb_true_iff, !Z.leb_le, !Z.ltb_lt. lia. }
  assert (Hin2 : in_frame frameWidth frameHeight x2 y2 = true).
  { unfold in_frame. rewrite !Bool.andb_true_iff, !Z.leb_le, !Z.ltb_lt. lia. }
  pose proof (bres_dx_nonneg x1 x2). pose proof (bres_dx_nonneg y1 y2).
  assert (Hlast : last l = Some (x2, y2)).
  { unfold getLinePixels in Hl. exact (bres_loop_last _ _ _ _ _ _ _ _ _ _ _ Hin2 Hl). }
  rewrite getLinePixels_unfold, bres_loop_state_S in Hl by lia.
  rewrite !Z.mul_0_r, !Z.add_0_r, Hin1 in Hl. cbv zeta in Hl.
  assert (Hhead : head l = Some (x1, y1)).
  { destruct (_ && _); [injection Hl as <-; reflexivity|].
    destruct (bres_loop _ _ _ _ _ _ _ _ _ _); [|discriminate].
    injection Hl as <-. reflexivity. }
  split; [intros ->; discriminate|].
  split; [exact Hhead|]. split; [exact Hlast|].
  intros Heq. injection Heq as <- <-.
  unfold bres_dx in Hl. rewrite !Z.sub_diag in Hl. simpl in Hl.
  injection Hl as <-. reflexivity.
Qed.

(** Witness for C6: the segment from (0,0) to (4,0) in a 10 x 10 frame. *)
Lemma getLinePixels_endpoints_witness :
  exists l, getLinePixels 10 10 0 0 4 0 = Some l /\
    l <> [] /\ head l = Some (0, 0) /\ last l = Some (4, 0) /\
    ((0, 0) = (4, 0) -> l = [(0, 0)]).
Proof. apply getLinePixels_endpoints; lia. Defined.

(* ------------------------------------------------------------------ *)
(** ** The colour resolver *)

(** The scan returns the temperature of the only entry closer than the
    threshold, whatever the entries before and after it. *)
Lemma nearest_scan_unique_near r g b (entries : list (Z * Q)) k temp
    minDistance closestTemp :
  (k, temp) ∈ entries ->
  (forall k' t', (k', t') ∈ entries -> dist2 r g b k' < 100 -> (k', t') = (k, temp)) ->
  dist2 r g b k < 100 ->
  (forall m, minDistance = Some m -> 100 <= m) ->
  nearest_scan r g b entries minDistance closestTemp = temp.
Proof.
  revert minDistance closestTemp.
  induction entries as [|[k0 t0] rest IH]; intros minDistance closestTemp Hin Huniq Hnear Hmin.
  - inversion Hin.
  - simpl. destruct (decide ((k0, t0) = (k, temp))) as [Heq|Hne].
    + injection Heq as -> ->.
      assert (Hc : match minDistance with None => true
                   | Some m => dist2 r g b k <? m end = true).
      { destruct minDistance as [m|]; [|reflexivity].
        apply Z.ltb_lt. specialize (Hmin m eq_refl). lia. }
      rewrite Hc. apply Z.ltb_lt in Hnear. rewrite Hnear. reflexivity.
    + assert (Hfar : 100 <= dist2 r g b k0).
      { destruct (Z.lt_ge_cases (dist2 r g b k0) 100) as [Hlt|]; [|assumption].
        exfalso. apply Hne, Huniq; [left|exact Hlt]. }
      assert (Hin' : (k, temp) ∈ rest).
      { apply elem_of_cons in Hin as [Hh|Ht]; [|exact Ht].
        exfalso. apply Hne. symmetry. exact Hh. }
      assert (Huniq' : forall k' t', (k', t') ∈ rest -> dist2 r g b k' < 100 ->
                         (k', t') = (k, temp)).
      { intros k' t' H. apply Huniq. right. exact H. }
      destruct (match minDistance with None => true
                | Some m => dist2 r g b k0 <? m end).
      * replace (dist2 r g b k0 <? 100) with false by (symmetry; apply Z.ltb_ge; lia).
        apply IH; [exact Hin'|exact Huniq'|exact Hnear|].
        intros m Hm. injection Hm as <-. exact Hfar.
      * apply IH; assumption.
Qed.

(** Claim C4: for a query with channels in [0,255] whose packed key is in
    the table, [getPixelTemperature] returns the stored temperature, for
    every table and every iteration order: the scan is not entered. *)
Theorem getPixelTemperature_exact (iter_order : gmap Z Q -> list (Z * Q))
    (tempMapping : gmap Z Q) r g b temp :
  channel_ok r -> channel_ok g -> channel_ok b ->
  tempMapping !! packRGB r g b = Some temp ->
  getPixelTemperature iter_order tempMapping r g b = temp.
Proof. intros _ _ _ Hk. unfold getPixelTemperature. rewrite Hk. reflexivity. Qed.

Section ResolverNear.

Context (iter_order : gmap Z Q -> list (Z * Q)).
Hypothesis iter_order_enumerates : forall m, iter_order m ≡ₚ map_to_list m.

(** Claim C5: for a table whose colours are pairwise at RGB distance at
    least 11 (squared distance at least 121) and a query with no exact
    match at distance below 10 (squared distance below 100) from exactly
    one entry [k], [getPixelTemperature] returns the temperature of [k],
    whatever the iteration order of the table. *)
Theorem getPixelTemperature_near (tempMapping : gmap Z Q) r g b k temp :
  map_Forall (fun k1 _ => map_Forall (fun k2 _ =>
    k1 <> k2 -> 121 <= key_dist2 k1 k2) tempMapping) tempMapping ->
  tempMapping !! packRGB r g b = None ->
  tempMapping !! k = Some temp ->
  dist2 r g b k < 100 ->
  map_Forall (fun k' _ => dist2 r g b k' < 100 -> k' = k) tempMapping ->
  getPixelTemperature iter_order tempMapping r g b = temp.
Proof.
  intros _ Hnone Hk Hnear Honly. unfold getPixelTemperature. rewrite Hnone.
  apply (nearest_scan_unique_near _ _ _ _ k); [| |exact Hnear|discriminate].
  - rewrite (iter_order_enumerates tempMapping). apply elem_of_map_to_list. exact Hk.
  - intros k' t' Hin Hlt.
    rewrite (iter_order_enumerates tempMapping), elem_of_map_to_list in Hin.
    pose proof (Honly k' t' Hin Hlt) as ->. congruence.
Qed.

End ResolverNear.

(** Witness for C4: the exact colour (255,0,0). *)
Lemma getPixelTemperature_exact_witness :
  table_red_green !! packRGB 255 0 0 = Some 1000%Q /\
  getPixelTemperature map_to_list table_red_green 255 0 0 = 1000%Q.
Proof.
  assert (H : table_red_green !! packRGB 255 0 0 = Some 1000%Q)
    by (vm_compute; reflexivity).
  split; [exact H|]. apply getPixelTemperature_exact;
    [unfold channel_ok; lia..|exact H].
Defined.

(** Witness for C5: the query (254,1,1), at squared distance 3 from red. *)
Lemma getPixelTemperature_near_witness :
  getPixelTemperature map_to_list table_red_green 254 1 1 = 1000%Q.
Proof.
  apply (getPixelTemperature_near map_to_list (fun m => reflexivity _)
           table_red_green 254 1 1 (packRGB 255 0 0)).
  - apply (bool_decide_unpack _). vm_compute. reflexivity.
  - vm_compute. reflexivity.
  - vm_compute. reflexivity.
  - vm_compute. reflexivity.
  - apply (bool_decide_unpack _). vm_compute. reflexivity.
Defined.

(* ------------------------------------------------------------------ *)
(** ** The frame cache and the line analyzer *)

(** [getFrame] touches only the capture, the cached frame and the last
    served index. *)
Lemma getFrame_fields st frameNumber :
  let st' := fst (getFrame st frameNumber) in
  tempMapping st' = tempMapping st /\ frameWidth st' = frameWidth st /\
  frameHeight st' = frameHeight st /\ totalFrames st' = totalFrames st.
Proof.
  unfold getFrame.
  destruct (negb (opened (cap st))); [repeat split|].
  destruct (negb (_ =? _)); [|repeat split].
  destruct (cap_read _) as [[c ok] img]. destruct (negb ok); repeat split.
Qed.

Section Analyzer.

Context (iter_order : gmap Z Q -> list (Z * Q)).

(** The resolved sample of the pixel at [p = (x, y)]. *)
Local Definition pixel_sample (tbl : gmap Z Q) (frame : Mat) (p : Z * Z) : Q :=
  let '(b, g, r) := mpix frame p.2 p.1 in
  let temp := getPixelTemperature iter_order tbl r g b in
  if Qle_bool 0 temp then temp else 0%Q.

Lemma analyze_pixels_in_bounds tbl frame linePixels :
  Forall (fun p => 0 <= p.1 < mcols frame /\ 0 <= p.2 < mrows frame) linePixels ->
  analyze_pixels iter_order tbl frame linePixels =
  Some (map (pixel_sample tbl frame) linePixels).
Proof.
  induction linePixels as [|[x y] rest IH]; intros Hall; [reflexivity|].
  apply Forall_cons in Hall as [Hxy Hrest]. simpl in Hxy.
  simpl. unfold mat_at.
  replace ((0 <=? y) && (y <? mrows frame) && (0 <=? x) && (x <? mcols frame))
    with true by (symmetry; rewrite !Bool.andb_true_iff, !Z.leb_le, !Z.ltb_lt; lia).
  unfold pixel_sample at 1. simpl.
  destruct (mpix frame y x) as [[b g] r].
  rewrite (IH Hrest). reflexivity.
Qed.

Lemma analyzeLine_unfold st frameNumber x1 y1 x2 y2 st1 frame linePixels :
  getFrame st frameNumber = (st1, frame) -> mat_empty frame = false ->
  getLinePixels (frameWidth st) (frameHeight st) x1 y1 x2 y2 = Some linePixels ->
  analyzeLine iter_order st frameNumber x1 y1 x2 y2 =
  (st1, analyze_pixels iter_order (tempMapping st) frame linePixels).
Proof.
  intros Hf Hne Hl. pose proof (getFrame_fields st frameNumber) as Hfl.
  rewrite Hf in Hfl. simpl in Hfl. destruct Hfl as (Ht & Hw & Hh & _).
  unfold analyzeLine. rewrite Hf, Hne, Hw, Hh, Hl, Ht. reflexivity.
Qed.

End Analyzer.

(** The samples of [analyzeLine] on a non-empty frame of the recorded
    dimensions. *)
Lemma analyzeLine_samples_map (iter_order : gmap Z Q -> list (Z * Q))
    st frameNumber x1 y1 x2 y2 st1 frame :
  getFrame st frameNumber = (st1, frame) -> mat_empty frame = false ->
  mrows frame = frameHeight st -> mcols frame = frameWidth st ->
  exists linePixels,
    getLinePixels (frameWidth st) (frameHeight st) x1 y1 x2 y2 = Some linePixels /\
    analyzeLine iter_order st frameNumber x1 y1 x2 y2 =
    (st1, Some (map (fun p =>
       let '(b, g, r) := mpix frame p.2 p.1 in
       let temp := getPixelTemperature iter_order (tempMapping st) r g b in
       if Qle_bool 0 temp then temp else 0%Q) linePixels)).
Proof.
  intros Hf Hne Hrows Hcols.
  destruct (getLinePixels_some (frameWidth st) (frameHeight st) x1 y1 x2 y2)
    as [linePixels Hl].
  exists linePixels. split; [exact Hl|].
  rewrite (analyzeLine_unfold iter_order st frameNumber x1 y1 x2 y2 st1 frame
             linePixels Hf Hne Hl).
  rewrite analyze_pixels_in_bounds; [reflexivity|].
  rewrite Hrows, Hcols. exact (getLinePixels_in_frame _ _ _ _ _ _ _ Hl).
Qed.




(** Claim C9: every point of the rasterizer's output lies in
    [0,frameWidth) x [0,frameHeight); so when the decoded frame has the
    recorded dimensions, no pixel read of [analyzeLine] falls outside it
    (the out-of-bounds outcome [None] does not occur). *)
Theorem analyzeLine_reads_in_bounds (iter_order : gmap Z Q -> list (Z * Q))
    st frameNumber x1 y1 x2 y2 :
  (forall linePixels,
     getLinePixels (frameWidth st) (frameHeight st) x1 y1 x2 y2 = Some linePixels ->
     Forall (fun p => 0 <= p.1 < frameWidth st /\ 0 <= p.2 < frameHeight st)
       linePixels) /\
  (forall st1 frame,
     getFrame st frameNumber = (st1, frame) ->
     mrows frame = frameHeight st -> mcols frame = frameWidth st ->
     snd (analyzeLine iter_order st frameNumber x1 y1 x2 y2) <> None).
Proof.
  split.
  - intros linePixels Hl. exact (getLinePixels_in_frame _ _ _ _ _ _ _ Hl).
  - intros st1 frame Hf Hrows Hcols.
    destruct (mat_empty frame) eqn:Hne.
    + unfold analyzeLine. rewrite Hf, Hne. discriminate.
    + destruct (analyzeLine_samples_map iter_order st frameNumber x1 y1 x2 y2 st1 frame
                  Hf Hne Hrows Hcols) as (linePixels & _ & ->).
      discriminate.
Qed.

(** Witness for C9: the red row of a fresh engine. *)
Lemma analyzeLine_reads_in_bounds_witness :
  Forall (fun p => 0 <= p.1 < 10 /\ 0 <= p.2 < 10)
    [(0, 0); (1, 0); (2, 0); (3, 0); (4, 0); (5, 0); (6, 0); (7, 0); (8, 0); (9, 0)] /\
  snd (analyzeLine map_to_list (engine_fresh table_red_green) 0 0 0 9 0) <> None.
Proof.
  destruct (analyzeLine_reads_in_bounds map_to_list (engine_fresh table_red_green)
              0 0 0 9 0) as [Hpix Hread].
  split.
  - apply Hpix. vm_compute. reflexivity.
  - apply (Hread (fst (getFrame (engine_fresh table_red_green) 0)) frame_red_top);
      vm_compute; reflexivity.
Defined.

(** C2 (code defect): [engine_cached] has served frame 2 and holds it.
    Requesting frame 5, whose decoding fails, returns an empty frame and
    keeps [lastFrameNumber = 2], but [cap.read(currentFrame)] has released
    the cached frame: the cache is no longer the one before the call, and
    a following request for frame 2 is answered with the empty frame
    instead of frame 2. *)
Lemma getFrame_failed_decode_clears_cache :
  mat_empty (currentFrame engine_cached) = false /\
  mat_empty (snd (getFrame engine_cached 2)) = false /\
  let '(st, frame) := getFrame engine_cached 5 in
  mat_empty frame = true /\
  lastFrameNumber st = lastFrameNumber engine_cached /\
  mat_empty (currentFrame st) = true /\
  mat_empty (snd (getFrame st 2)) = true.
Proof. vm_compute. repeat split. Qed.

(* ------------------------------------------------------------------ *)
(** ** The calibration loader *)

Section LoaderProofs.

Context (stof : string -> option Q).

Lemma load_rows_cons line rest (m : gmap Z Q) count :
  load_rows stof (line :: rest) m count =
  match row_entry stof line with
  | Some (key, temp) => load_rows stof rest (<[key := temp]> m) (count + 1)
  | None => load_rows stof rest m count
  end.
Proof.
  unfold row_entry. cbn [load_rows].
  destruct (6 <=? length (getlines char_comma line))%nat; [|reflexivity].
  destruct (parse_row stof _) as [[[[r g] b] temp]|]; [|reflexivity].
  destruct (rgb_valid r g b); reflexivity.
Qed.

Lemma load_rows_spec lines (m : gmap Z Q) count :
  load_rows stof lines m count =
  (fold_left insert_entry (omap (row_entry stof) lines) m,
   count + Z.of_nat (length (omap (row_entry stof) lines))).
Proof.
  revert m count. induction lines as [|line rest IH]; intros m count.
  - simpl. f_equal. lia.
  - rewrite load_rows_cons. simpl.
    destruct (row_entry stof line) as [[key temp]|]; rewrite IH.
    + simpl. f_equal. rewrite Nat2Z.inj_succ. unfold omap, list_omap. lia.
    + reflexivity.
Qed.

End LoaderProofs.

(** Claim C1 (as amended): after every call of [loadTempMapping] the
    table is the previous table updated, in file order, with the pairs
    parsed from the valid data rows (last write wins); nothing is
    removed.  The call succeeds exactly when the file opens and has at
    least one valid row; otherwise the table is unchanged. *)
Theorem loadTempMapping_table (stof : string -> option Q) st file :
  tempMapping (fst (loadTempMapping stof st file)) =
    match file with
    | None => tempMapping st
    | Some contents => fold_left insert_entry (parsed_entries stof contents) (tempMapping st)
    end /\
  (snd (loadTempMapping stof st file) = true <->
   exists contents, file = Some contents /\ parsed_entries stof contents <> []).
Proof.
  destruct file as [contents|].
  - unfold loadTempMapping, parsed_entries. rewrite load_rows_spec. simpl.
    split; [reflexivity|].
    rewrite Z.ltb_lt. split.
    + intros H. exists contents. split; [reflexivity|].
      intros Hnil. rewrite Hnil in H. simpl in H. lia.
    + intros (c & Hc & Hne). injection Hc as <-.
      destruct (omap _ _); [contradiction|]. simpl. lia.
  - simpl. split; [reflexivity|]. split; [discriminate|].
    intros (c & Hc & _). discriminate.
Qed.

(** Counterexample to C1 as stated: a table holding pure blue, then a
    successful load of a file that defines only (1,2,3): the blue entry
    of the earlier table survives. *)
Lemma loadTempMapping_keeps_old_entries :
  parsed_entries stof_decimal csv_one_row = [(packRGB 1 2 3, 20%Q)] /\
  snd (loadTempMapping stof_decimal (engine_fresh table_blue) (Some csv_one_row)) = true /\
  tempMapping (fst (loadTempMapping stof_decimal (engine_fresh table_blue)
                      (Some csv_one_row))) !! packRGB 0 0 255 = Some 7%Q.
Proof. vm_compute. repeat split. Qed.

(** Claim C10: [loadTempMapping], whether it succeeds or fails, changes
    only the calibration table: the capture, the cached frame, the frame
    count, the frame rate, the dimensions and the last served index are
    those before the call. *)
Theorem loadTempMapping_frame (stof : string -> option Q) st file :
  let st' := fst (loadTempMapping stof st file) in
  cap st' = cap st /\ currentFrame st' = currentFrame st /\
  totalFrames st' = totalFrames st /\ fps st' = fps st /\
  frameWidth st' = frameWidth st /\ frameHeight st' = frameHeight st /\
  lastFrameNumber st' = lastFrameNumber st.
Proof.
  destruct file as [contents|]; simpl; [|repeat split].
  destruct (load_rows stof _ _ _). repeat split.
Qed.

(* ------------------------------------------------------------------ *)
(** ** The rasterizer: shape of its output *)

Section BresenhamShape.

Variables x1 y1 x2 y2 : Z.

Local Abbreviation dx := (bres_dx x1 x2).
Local Abbreviation dy := (bres_dx y1 y2).
Local Abbreviation sx := (bres_sx x1 x2).
Local Abbreviation sy := (bres_sx y1 y2).
Local Abbreviation bstate := (bres_state x1 y1 x2 y2).
Local Abbreviation berr := (bres_err x1 y1 x2 y2).
Local Abbreviation bgood := (bres_good x1 y1 x2 y2).
Local Abbreviation bmajor := (bres_major x1 y1 x2 y2).

Lemma bres_state_inj a b c d : bstate a b = bstate c d -> a = c /\ b = d.
Proof.
  unfold bres_state. intros H. injection H as Hx Hy _.
  destruct (bres_sx_cases x1 x2) as [[Ex _]|[Ex _]];
  destruct (bres_sx_cases y1 y2) as [[Ey _]|[Ey _]];
  rewrite Ex, Ey in *; lia.
Qed.

Lemma bres_step_explicit kx ky :
  bres_step dx dy sx sy (bstate kx ky) =
  bstate (kx + if 2 * berr kx ky >? - dy then 1 else 0)
             (ky + if 2 * berr kx ky <? dx then 1 else 0).
Proof.
  unfold bres_step, bres_state, bres_err.
  destruct (_ >? _), (_ <? _); f_equal; [f_equal| |f_equal| |f_equal| |f_equal|]; ring.
Qed.

Lemma bres_err_shift kx ky a b :
  berr (kx + a) (ky + b) = berr kx ky - a * dy + b * dx.
Proof. unfold bres_err. ring. Qed.

Lemma bres_good_init : bgood 0 0.
Proof.
  unfold bres_good, bres_err.
  pose proof (bres_dx_nonneg x1 x2). pose proof (bres_dx_nonneg y1 y2).
  repeat split; lia.
Qed.

(** From a good state that is not the last, the step moves the major axis
    by one, the minor axis by at most one, and stays good. *)
Lemma bres_good_step kx ky :
  bgood kx ky -> ~ (kx = dx /\ ky = dy) ->
  exists kx' ky',
    bres_step dx dy sx sy (bstate kx ky) = bstate kx' ky' /\
    bgood kx' ky' /\ bmajor kx' ky' = bmajor kx ky + 1 /\
    kx <= kx' <= kx + 1 /\ ky <= ky' <= ky + 1.
Proof.
  intros Hg Hend. pose proof Hg as (Hkx & Hky & Hdiag & Hlo & Hhi).
  destruct (bres_step_state x1 y1 x2 y2 kx ky Hkx Hky Hend)
    as (kx' & ky' & Hs & Hbx & Hby & _).
  pose proof (bres_step_explicit kx ky) as He. rewrite Hs in He.
  apply bres_state_inj in He as [Ex Ey].
  exists kx', ky'. split; [exact Hs|].
  pose proof (bres_dx_nonneg x1 x2). pose proof (bres_dx_nonneg y1 y2).
  assert (Hzero : dx = dy -> berr kx ky = 0).
  { intros Hd. unfold bres_err. rewrite Hd, (Hdiag Hd). ring. }
  unfold bres_good, bres_major in *.
  set (e := bres_err x1 y1 x2 y2 kx ky) in *.
  assert (He' : bres_err x1 y1 x2 y2 kx' ky' =
                e - (kx' - kx) * dy + (ky' - ky) * dx).
  { replace kx' with (kx + (kx' - kx)) at 1 by lia.
    replace ky' with (ky + (ky' - ky)) at 1 by lia.
    apply bres_err_shift. }
  destruct (Z.leb_spec dy dx) as [Hyx|Hyx].
  - (* x is the major axis: it moves at every iteration *)
    assert (Hmove : 2 * e > - dy).
    { destruct (Z.eq_dec dx dy) as [Hd|Hd]; [|specialize (Hlo Hyx); lia].
      rewrite (Hzero Hd). assert (kx = ky) by (apply Hdiag; exact Hd). lia. }
    replace (2 * e >? - dy) with true in Ex by (symmetry; apply Z.gtb_lt; lia).
    rewrite He'.
    destruct (Z.ltb_spec (2 * e) dx) as [Hy|Hy]; subst kx' ky';
      repeat split; try lia;
      intros Hd; pose proof (Hzero Hd); pose proof (Hdiag Hd); lia.
  - (* y is the major axis *)
    assert (Hmove : 2 * e < dx) by (specialize (Hhi ltac:(lia)); lia).
    replace (2 * e <? dx) with true in Ey by (symmetry; apply Z.ltb_lt; lia).
    rewrite He'.
    destruct (Z.gtb_spec (2 * e) (- dy)) as [Hx|Hx]; subst kx' ky';
      repeat split; lia.
Qed.

(** A good state whose major counter is complete is the last one. *)
Lemma bres_good_end kx ky :
  bgood kx ky -> bmajor kx ky = Z.max dx dy -> kx = dx /\ ky = dy.
Proof.
  intros Hg Hm.
  destruct (Z.eq_dec kx dx), (Z.eq_dec ky dy); [auto| | |];
  (destruct (bres_good_step kx ky Hg ltac:(lia)) as (kx' & ky' & _ & Hg' & Hm' & _);
   unfold bres_good, bres_major in *;
   destruct (Z.leb_spec dy dx); lia).
Qed.

Lemma bres_sx_cancel a c u v : bres_sx a c * u = bres_sx a c * v -> u = v.
Proof. destruct (bres_sx_cases a c) as [[-> _]|[-> _]]; lia. Qed.

Variables frameWidth frameHeight : Z.

(** Every emitted point is a loop state at or after the current one, and no
    point is emitted twice. *)
Lemma bres_loop_points (n : nat) kx ky l :
  0 <= kx <= dx -> 0 <= ky <= dy ->
  bres_loop frameWidth frameHeight x2 y2 dx dy sx sy n (bstate kx ky) = Some l ->
  Forall (fun p => exists a b, kx <= a <= dx /\ ky <= b <= dy /\
                               p = (x1 + sx * a, y1 + sy * b)) l /\ NoDup l.
Proof.
  revert kx ky l. induction n as [|n IH]; intros kx ky l Hx Hy Hl; [discriminate|].
  rewrite bres_loop_state_S in Hl by assumption. cbv zeta in Hl.
  destruct ((kx =? dx) && (ky =? dy)) eqn:Hend.
  - injection Hl as <-.
    destruct (in_frame _ _ _ _); split; repeat constructor; try set_solver.
    exists kx, ky. repeat split; lia.
  - destruct (bres_step_state x1 y1 x2 y2 kx ky) as (kx' & ky' & Hs & ? & ? & ?);
      [lia|lia| rewrite Bool.andb_false_iff, !Z.eqb_neq in Hend; lia |].
    rewrite Hs in Hl.
    destruct (bres_loop _ _ _ _ _ _ _ _ n _) as [l'|] eqn:Hl'; [|discriminate].
    injection Hl as <-. destruct (IH kx' ky' l') as [HF HN]; [lia|lia|exact Hl'|].
    assert (Hnot : (x1 + sx * kx, y1 + sy * ky) ∉ l').
    { intros Hin. rewrite Forall_forall in HF.
      destruct (HF _ Hin) as (a & b & ? & ? & Heq). injection Heq as Ea Eb.
      apply Z.add_reg_l, bres_sx_cancel in Ea, Eb. lia. }
    assert (HF' : Forall (fun p => exists a b, kx <= a <= dx /\ ky <= b <= dy /\
                               p = (x1 + sx * a, y1 + sy * b)) l').
    { eapply Forall_impl; [exact HF|]. intros p (a & b & ? & ? & ->).
      exists a, b. repeat split; lia. }
    destruct (in_frame _ _ _ _); simpl; [|split; assumption].
    split; [constructor; [exists kx, ky; repeat split; lia|exact HF']|].
    apply NoDup_cons; split; assumption.
Qed.

Hypotheses (Hp1 : in_frame frameWidth frameHeight x1 y1 = true)
           (Hp2 : in_frame frameWidth frameHeight x2 y2 = true).

Lemma bres_point_in_frame a b :
  0 <= a <= dx -> 0 <= b <= dy ->
  in_frame frameWidth frameHeight (x1 + sx * a) (y1 + sy * b) = true.
Proof.
  unfold in_frame in *. rewrite !Bool.andb_true_iff, !Z.leb_le, !Z.ltb_lt in *.
  unfold bres_dx.
  destruct (bres_sx_cases x1 x2) as [[-> ?]|[-> ?]];
  destruct (bres_sx_cases y1 y2) as [[-> ?]|[-> ?]]; lia.
Qed.

(** With both endpoints in the frame, a good state emits one point per
    remaining move of the major axis, each a neighbour of the one before. *)
Lemma bres_loop_full (n : nat) kx ky :
  bgood kx ky -> Z.max dx dy - bmajor kx ky < Z.of_nat n ->
  exists l,
    bres_loop frameWidth frameHeight x2 y2 dx dy sx sy n (bstate kx ky) = Some l /\
    length l = (Z.to_nat (Z.max dx dy - bmajor kx ky) + 1)%nat /\
    head l = Some (x1 + sx * kx, y1 + sy * ky) /\ steps_adjacent l.
Proof.
  revert kx ky. induction n as [|n IH]; intros kx ky Hg Hn;
    pose proof Hg as (Hkx & Hky & _);
    [unfold bres_major in Hn; destruct (Z.leb_spec dy dx); lia|].
  rewrite bres_loop_state_S by assumption. cbv zeta.
  rewrite bres_point_in_frame by assumption.
  destruct ((kx =? dx) && (ky =? dy)) eqn:Hend.
  - apply Bool.andb_true_iff in Hend as [Ex Ey]. apply Z.eqb_eq in Ex, Ey.
    eexists; split; [reflexivity|].
    split; [unfold bres_major; destruct (Z.leb_spec dy dx); simpl; lia|].
    split; [reflexivity|]. intros [|i] p q _ Hq; discriminate.
  - destruct (bres_good_step kx ky Hg) as (kx' & ky' & Hs & Hg' & Hm & ? & ?);
      [rewrite Bool.andb_false_iff, !Z.eqb_neq in Hend; lia|].
    rewrite Hs.
    destruct (IH kx' ky' Hg') as (l' & Hl' & Hlen & Hhd & Hadj); [lia|].
    rewrite Hl'. simpl. eexists; split; [reflexivity|].
    pose proof Hg' as (? & ? & _).
    assert (bmajor kx' ky' <= Z.max dx dy).
    { unfold bres_major. destruct (Z.leb_spec dy dx); lia. }
    split; [cbn [length]; lia|]. split; [reflexivity|].
    intros [|i] p q Hp Hq; simpl in Hp, Hq; [|exact (Hadj i p q Hp Hq)].
    injection Hp as <-. destruct l' as [|q' l']; [discriminate|].
    simpl in Hhd, Hq. rewrite Hhd in Hq. injection Hq as <-. simpl.
    destruct (bres_sx_cases x1 x2) as [[-> ?]|[-> ?]];
    destruct (bres_sx_cases y1 y2) as [[-> ?]|[-> ?]]; lia.
Qed.

End BresenhamShape.

(* ------------------------------------------------------------------ *)
(** ** The rasterizer with [int] arithmetic *)

Lemma int32_op_in v : - 2 ^ 31 <= v < 2 ^ 31 -> int32_op v = Some v.
Proof.
  intros Hv. unfold int32_op.
  replace ((- 2 ^ 31 <=? v) && (v <? 2 ^ 31)) with true
    by (symmetry; rewrite Bool.andb_true_iff, Z.leb_le, Z.ltb_lt; lia).
  reflexivity.
Qed.

(** Where the [int] step does not overflow, the [int] loop runs as the
    loop over unbounded integers. *)
Lemma bres_loop32_agree frameWidth frameHeight x2 y2 dx dy sx sy
    (P : Z * Z * Z -> Prop) :
  (forall x y e, P (x, y, e) -> (x =? x2) && (y =? y2) = false ->
     bres_step32 dx dy sx sy (x, y, e) = Some (bres_step dx dy sx sy (x, y, e)) /\
     P (bres_step dx dy sx sy (x, y, e))) ->
  forall n s, P s ->
  bres_loop32 frameWidth frameHeight x2 y2 dx dy sx sy n s =
  match bres_loop frameWidth frameHeight x2 y2 dx dy sx sy n s with
  | Some l => LineReturns l
  | None => LineOutOfFuel
  end.
Proof.
  intros Hstep n. induction n as [|n IH]; intros [[x y] e] Hp; [reflexivity|].
  cbn [bres_loop32 bres_loop].
  destruct ((x =? x2) && (y =? y2)) eqn:Hend; [reflexivity|].
  destruct (Hstep x y e Hp Hend) as [Hs Hp']. rewrite Hs, (IH _ Hp').
  destruct (bres_loop _ _ _ _ _ _ _ _ n _); reflexivity.
Qed.

Section Bresenham32.

Variables x1 y1 x2 y2 : Z.
Hypothesis Hx1 : - 2 ^ 31 <= x1 < 2 ^ 31.
Hypothesis Hy1 : - 2 ^ 31 <= y1 < 2 ^ 31.
Hypothesis Hx2 : - 2 ^ 31 <= x2 < 2 ^ 31.
Hypothesis Hy2 : - 2 ^ 31 <= y2 < 2 ^ 31.
Hypothesis Hdx : bres_dx x1 x2 < 2 ^ 29.
Hypothesis Hdy : bres_dx y1 y2 < 2 ^ 29.

Local Abbreviation dx := (bres_dx x1 x2).
Local Abbreviation dy := (bres_dx y1 y2).
Local Abbreviation sx := (bres_sx x1 x2).
Local Abbreviation sy := (bres_sx y1 y2).

Local Abbreviation bres32_inv := (bres32_inv x1 y1 x2 y2).

Lemma bres32_inv_step x y e :
  bres32_inv (x, y, e) -> (x =? x2) && (y =? y2) = false ->
  bres_step32 dx dy sx sy (x, y, e) = Some (bres_step dx dy sx sy (x, y, e)) /\
  bres32_inv (bres_step dx dy sx sy (x, y, e)).
Proof.
  intros (kx & ky & Hs & Hkx & Hky & He) Hend.
  pose proof Hs as Hs0. unfold bres_state in Hs0. injection Hs0 as -> -> _.
  rewrite Hs.
  pose proof (bres_dx_nonneg x1 x2). pose proof (bres_dx_nonneg y1 y2).
  assert (Hne : ~ (kx = dx /\ ky = dy)).
  { intros [-> ->]. unfold bres_state in Hend. rewrite !bres_endpoint in Hend.
    rewrite !Z.eqb_refl in Hend. discriminate. }
  destruct (bres_step_state x1 y1 x2 y2 kx ky Hkx Hky Hne)
    as (kx' & ky' & Hs' & Hkx' & Hky' & _).
  pose proof (bres_step_explicit x1 y1 x2 y2 kx ky) as Hex. rewrite Hs' in Hex.
  apply bres_state_inj in Hex as [Ex Ey].
  rewrite Hs'. unfold bres_err in He, Ex, Ey.
  assert (Hm : Z.max dx dy < 2 ^ 29) by lia.
  split.
  2: { exists kx', ky'. split; [reflexivity|]. split; [lia|]. split; [lia|].
       unfold bres_err. subst kx' ky'.
       destruct (Z.gtb_spec (2 * (dx * (1 + ky) - dy * (1 + kx))) (- dy));
       destruct (Z.ltb_spec (2 * (dx * (1 + ky) - dy * (1 + kx))) dx); lia. }
  unfold bres_step32, bres_state in *.
  set (err := dx * (1 + ky) - dy * (1 + kx)) in *.
  rewrite (int32_op_in (2 * err)) by lia.
  destruct (bres_sx_cases x1 x2) as [[Esx ?]|[Esx ?]];
  destruct (bres_sx_cases y1 y2) as [[Esy ?]|[Esy ?]];
  rewrite ?Esx, ?Esy in *; unfold bres_dx in *;
  destruct (Z.gtb_spec (2 * err) (- Z.abs (y2 - y1)));
  destruct (Z.ltb_spec (2 * err) (Z.abs (x2 - x1)));
  subst kx' ky';
  rewrite ?int32_op_in by lia; cbn -[Z.mul Z.add Z.sub Z.opp Z.abs];
  unfold err in *; f_equal;
  (apply pair_equal_spec; split; [apply pair_equal_spec; split|]); ring.
Qed.

Lemma getLinePixels32_agree_aux frameWidth frameHeight :
  getLinePixels32 frameWidth frameHeight x1 y1 x2 y2 =
  match getLinePixels frameWidth frameHeight x1 y1 x2 y2 with
  | Some l => LineReturns l
  | None => LineOutOfFuel
  end.
Proof.
  pose proof (bres_dx_nonneg x1 x2). pose proof (bres_dx_nonneg y1 y2).
  unfold getLinePixels32, getLinePixels.
  unfold bres_dx in Hdx, Hdy.
  rewrite (int32_op_in (x2 - x1)), (int32_op_in (y2 - y1)) by lia.
  rewrite (int32_op_in (Z.abs (x2 - x1))), (int32_op_in (Z.abs (y2 - y1))) by lia.
  rewrite (int32_op_in (Z.abs (x2 - x1) - Z.abs (y2 - y1))) by lia.
  apply (bres_loop32_agree _ _ _ _ _ _ _ _ bres32_inv bres32_inv_step).
  exists 0, 0. rewrite <- bres_init_state.
  split; [reflexivity|]. unfold bres_err, bres_dx in *. lia.
Qed.

End Bresenham32.

(** Claim C7 (as amended): on [int] endpoints whose coordinates differ by
    less than [2^29] on each axis (in particular any two points of a frame
    narrower and lower than [2^29] pixels), the loop of [getLinePixels]
    performs no [int] overflow and reaches its [break] at [p2]: the run
    returns, and returns the list of the unbounded model. *)
Theorem getLinePixels32_terminates frameWidth frameHeight x1 y1 x2 y2 :
  - 2 ^ 31 <= x1 < 2 ^ 31 -> - 2 ^ 31 <= y1 < 2 ^ 31 ->
  - 2 ^ 31 <= x2 < 2 ^ 31 -> - 2 ^ 31 <= y2 < 2 ^ 31 ->
  Z.abs (x2 - x1) < 2 ^ 29 -> Z.abs (y2 - y1) < 2 ^ 29 ->
  exists l, getLinePixels32 frameWidth frameHeight x1 y1 x2 y2 = LineReturns l /\
    getLinePixels frameWidth frameHeight x1 y1 x2 y2 = Some l.
Proof.
  intros Hx1 Hy1 Hx2 Hy2 Hdx Hdy.
  rewrite (getLinePixels32_agree_aux x1 y1 x2 y2 Hx1 Hy1 Hx2 Hy2 Hdx Hdy).
  destruct (getLinePixels_some frameWidth frameHeight x1 y1 x2 y2) as [l ->].
  exists l. split; reflexivity.
Qed.

(** Witness for C7: a segment from (-7,3) to (12,-4), mostly outside a
    10 x 10 frame. *)
Lemma getLinePixels32_terminates_witness :
  exists l, getLinePixels32 10 10 (-7) 3 12 (-4) = LineReturns l /\
    getLinePixels 10 10 (-7) 3 12 (-4) = Some l.
Proof. apply getLinePixels32_terminates; lia. Defined.

(** Counterexample to C7 as stated: the binding converts [2147483647] to
    an [int] unchanged, and on the endpoints (0,0) and (2147483647,0)
    the first evaluation of [2 * err] (line 48) overflows [int]. *)
Lemma getLinePixels32_overflow :
  double_to_int 2147483647 = Some 2147483647 /\
  getLinePixels32 10 10 0 0 2147483647 0 = LineOverflow.
Proof.
  split; [reflexivity|].
  unfold getLinePixels32.
  repeat (rewrite int32_op_in by lia; cbn -[bres_loop32 Z.to_nat int32_op]).
  destruct (Z.to_nat _) as [|n] eqn:Hn; [lia|].
  reflexivity.
Qed.


Lemma getLinePixels_box_nodup_aux frameWidth frameHeight x1 y1 x2 y2 :
  exists l, getLinePixels frameWidth frameHeight x1 y1 x2 y2 = Some l /\
    NoDup l /\
    Forall (fun p => Z.min x1 x2 <= p.1 <= Z.max x1 x2 /\
                     Z.min y1 y2 <= p.2 <= Z.max y1 y2) l.
Proof.
  pose proof (bres_dx_nonneg x1 x2). pose proof (bres_dx_nonneg y1 y2).
  rewrite getLinePixels_unfold.
  destruct (bres_loop_some x1 y1 x2 y2 frameWidth frameHeight
              (S (Z.to_nat (bres_dx x1 x2 + bres_dx y1 y2))) 0 0) as [l Hl];
    [lia|lia|lia|].
  exists l. split; [exact Hl|].
  destruct (bres_loop_points x1 y1 x2 y2 frameWidth frameHeight
              (S (Z.to_nat (bres_dx x1 x2 + bres_dx y1 y2))) 0 0 l)
    as [HF HN]; [lia|lia|exact Hl|].
  split; [exact HN|].
  eapply Forall_impl; [exact HF|]. intros p (a & b & ? & ? & ->). simpl.
  unfold bres_dx in *.
  destruct (bres_sx_cases x1 x2) as [[-> ?]|[-> ?]];
  destruct (bres_sx_cases y1 y2) as [[-> ?]|[-> ?]]; lia.
Qed.

(** The rasterizer, on [int] endpoints whose coordinates differ by less
    than [2^29] on each axis, returns without overflow, never emits a point
    twice, and emits only points of the bounding box of the segment. *)
Theorem getLinePixels32_box_nodup frameWidth frameHeight x1 y1 x2 y2 :
  - 2 ^ 31 <= x1 < 2 ^ 31 -> - 2 ^ 31 <= y1 < 2 ^ 31 ->
  - 2 ^ 31 <= x2 < 2 ^ 31 -> - 2 ^ 31 <= y2 < 2 ^ 31 ->
  Z.abs (x2 - x1) < 2 ^ 29 -> Z.abs (y2 - y1) < 2 ^ 29 ->
  exists l, getLinePixels32 frameWidth frameHeight x1 y1 x2 y2 = LineReturns l /\
    NoDup l /\
    Forall (fun p => Z.min x1 x2 <= p.1 <= Z.max x1 x2 /\
                     Z.min y1 y2 <= p.2 <= Z.max y1 y2) l.
Proof.
  intros Hx1 Hy1 Hx2 Hy2 Hdx Hdy.
  rewrite (getLinePixels32_agree_aux x1 y1 x2 y2 Hx1 Hy1 Hx2 Hy2 Hdx Hdy).
  destruct (getLinePixels_box_nodup_aux frameWidth frameHeight x1 y1 x2 y2)
    as (l & -> & Hnd & Hbox).
  exists l. split; [reflexivity|]. split; assumption.
Qed.

(** Witness: the segment from (-7,3) to (12,-4) in a 10 x 10 frame. *)
Lemma getLinePixels32_box_nodup_witness :
  exists l, getLinePixels32 10 10 (-7) 3 12 (-4) = LineReturns l /\
    NoDup l /\
    Forall (fun p => Z.min (-7) 12 <= p.1 <= Z.max (-7) 12 /\
                     Z.min 3 (-4) <= p.2 <= Z.max 3 (-4)) l.
Proof. apply getLinePixels32_box_nodup; lia. Defined.

Lemma getLinePixels_length_adjacent_aux frameWidth frameHeight x1 y1 x2 y2 :
  0 <= x1 < frameWidth -> 0 <= y1 < frameHeight ->
  0 <= x2 < frameWidth -> 0 <= y2 < frameHeight ->
  exists l, getLinePixels frameWidth frameHeight x1 y1 x2 y2 = Some l /\
    length l = (Z.to_nat (Z.max (Z.abs (x2 - x1)) (Z.abs (y2 - y1))) + 1)%nat /\
    steps_adjacent l.
Proof.
  intros Hx1 Hy1 Hx2 Hy2.
  assert (Hin1 : in_frame frameWidth frameHeight x1 y1 = true).
  { unfold in_frame. rewrite !Bool.andb_true_iff, !Z.leb_le, !Z.ltb_lt. lia. }
  assert (Hin2 : in_frame frameWidth frameHeight x2 y2 = true).
  { unfold in_frame. rewrite !Bool.andb_true_iff, !Z.leb_le, !Z.ltb_lt. lia. }
  pose proof (bres_dx_nonneg x1 x2). pose proof (bres_dx_nonneg y1 y2).
  rewrite getLinePixels_unfold.
  destruct (bres_loop_full x1 y1 x2 y2 frameWidth frameHeight Hin1 Hin2
              (S (Z.to_nat (bres_dx x1 x2 + bres_dx y1 y2))) 0 0
              (bres_good_init x1 y1 x2 y2)) as (l & Hl & Hlen & _ & Hadj).
  { unfold bres_major. destruct (Z.leb_spec (bres_dx y1 y2) (bres_dx x1 x2)); lia. }
  exists l. split; [exact Hl|]. split; [|exact Hadj].
  rewrite Hlen. unfold bres_major, bres_dx.
  destruct (Z.leb_spec (Z.abs (y2 - y1)) (Z.abs (x2 - x1))); f_equal; lia.
Qed.

(** With both endpoints inside the frame, the rasterizer emits exactly
    max(|dx|, |dy|) + 1 points, each an 8-neighbour of the one before. *)
Theorem getLinePixels_length_adjacent frameWidth frameHeight x1 y1 x2 y2 :
  0 <= x1 < frameWidth -> 0 <= y1 < frameHeight ->
  0 <= x2 < frameWidth -> 0 <= y2 < frameHeight ->
  exists l, getLinePixels frameWidth frameHeight x1 y1 x2 y2 = Some l /\
    length l = (Z.to_nat (Z.max (Z.abs (x2 - x1)) (Z.abs (y2 - y1))) + 1)%nat /\
    steps_adjacent l.
Proof. exact (getLinePixels_length_adjacent_aux frameWidth frameHeight x1 y1 x2 y2). Qed.

(** Witness: a steep segment from (2,1) to (5,8) in a 10 x 10 frame. *)
Lemma getLinePixels_length_adjacent_witness :
  exists l, getLinePixels 10 10 2 1 5 8 = Some l /\
    length l = (Z.to_nat (Z.max (Z.abs (5 - 2)) (Z.abs (8 - 1))) + 1)%nat /\
    steps_adjacent l.
Proof. apply getLinePixels_length_adjacent; lia. Defined.

(* ------------------------------------------------------------------ *)
(** ** Frame serving *)

Lemma clamp_frame_idem total n :
  clamp_frame total (clamp_frame total n) = clamp_frame total n.
Proof. unfold clamp_frame. lia. Qed.

Lemma clamp_frame_in_range total n :
  0 <= n < total -> clamp_frame total n = n.
Proof. unfold clamp_frame. lia. Qed.

Lemma cap_read_spec c c' ok img :
  cap_read c = (c', ok, img) ->
  decode c' = decode c /\ opened c' = opened c /\
  (ok = true -> decode c (pos c) = Some img /\ mat_empty img = false) /\
  (ok = false -> mat_empty img = true).
Proof.
  unfold cap_read. destruct (decode c (pos c)) as [f|] eqn:Hd; intros H;
    injection H as <- <- <-; simpl.
  - split; [reflexivity|]. split; [reflexivity|].
    destruct (mat_empty f); simpl; split; intros Hok;
      try discriminate; try split; reflexivity.
  - repeat split; intros; discriminate.
Qed.

(** Every request is served as its clamped index: asking for frame [n] is
    asking for [max 0 (min n (totalFrames - 1))]. *)
Theorem getFrame_clamped st n :
  getFrame st n = getFrame st (clamp_frame (totalFrames st) n).
Proof. unfold getFrame. rewrite clamp_frame_idem. reflexivity. Qed.

Lemma getFrame_decoded_aux st n :
  frame_cache_ok st ->
  let '(st', f) := getFrame st n in
  frame_cache_ok st' /\ decode (cap st') = decode (cap st) /\
  (mat_empty f = false -> decode (cap st) (clamp_frame (totalFrames st) n) = Some f).
Proof.
  intros Hinv. unfold getFrame.
  destruct (opened (cap st)) eqn:Ho; simpl;
    [|repeat split; [exact Hinv|discriminate]].
  destruct (clamp_frame (totalFrames st) n =? lastFrameNumber st) eqn:Hc; simpl.
  - apply Z.eqb_eq in Hc. repeat split; [exact Hinv|].
    rewrite Hc. exact Hinv.
  - destruct (cap_read (cap_set (cap st) (clamp_frame (totalFrames st) n)))
      as [[c ok] img] eqn:Hr.
    destruct (cap_read_spec _ _ _ _ Hr) as (Hdec & _ & Hok & Hko).
    simpl in Hdec, Hok.
    destruct ok; simpl.
    + destruct (Hok eq_refl) as [Himg Hne].
      split; [|split; [exact Hdec|intros _; exact Himg]].
      intros _. simpl. rewrite Hdec. exact Himg.
    + split; [|split; [exact Hdec|discriminate]].
      intros Hne. simpl in Hne. rewrite (Hko eq_refl) in Hne. discriminate.
Qed.

(** While the frame cache is consistent, [getFrame] keeps it consistent, never
    changes the decoder, and every non-empty frame it returns is the frame
    the video decodes at the clamped index. *)
Theorem getFrame_serves_decoded st n :
  frame_cache_ok st ->
  let '(st', f) := getFrame st n in
  frame_cache_ok st' /\ decode (cap st') = decode (cap st) /\
  (mat_empty f = false -> decode (cap st) (clamp_frame (totalFrames st) n) = Some f).
Proof. apply getFrame_decoded_aux. Qed.

(** Witness: the cached engine, asked for frame 7. *)
Lemma getFrame_serves_decoded_witness :
  frame_cache_ok engine_cached /\
  let '(st', f) := getFrame engine_cached 7 in
  frame_cache_ok st' /\ decode (cap st') = decode (cap engine_cached) /\
  (mat_empty f = false ->
   decode (cap engine_cached) (clamp_frame (totalFrames engine_cached) 7) = Some f).
Proof.
  assert (H : frame_cache_ok engine_cached) by (intros _; reflexivity).
  split; [exact H|]. exact (getFrame_serves_decoded engine_cached 7 H).
Defined.

(** Once [getFrame] has returned a non-empty frame, asking for the same
    frame again returns it without touching the video or the engine. *)
Theorem getFrame_repeat st n st1 f :
  getFrame st n = (st1, f) -> mat_empty f = false -> getFrame st1 n = (st1, f).
Proof.
  unfold getFrame. destruct (opened (cap st)) eqn:Ho; simpl;
    [|intros H; injection H as <- <-; discriminate].
  destruct (clamp_frame (totalFrames st) n =? lastFrameNumber st) eqn:Hc; simpl.
  - intros H _. injection H as <- <-. rewrite Ho, Hc. reflexivity.
  - destruct (cap_read (cap_set (cap st) (clamp_frame (totalFrames st) n)))
      as [[c ok] img] eqn:Hr.
    destruct (cap_read_spec _ _ _ _ Hr) as (_ & Hop & _).
    destruct ok; simpl; intros H; injection H as <- <-; [|discriminate].
    intros _. simpl in Hop |- *. rewrite Hop, Ho. simpl.
    rewrite Z.eqb_refl. reflexivity.
Qed.

(** Witness: the fresh demo engine asked twice for frame 3. *)
Lemma getFrame_repeat_witness :
  exists st1 f, getFrame (engine_fresh table_red_green) 3 = (st1, f) /\
    mat_empty f = false /\ getFrame st1 3 = (st1, f).
Proof.
  eexists _, _. split; [reflexivity|].
  split; [reflexivity|].
  apply (getFrame_repeat (engine_fresh table_red_green) 3); reflexivity.
Defined.

(** On a non-empty frame of the recorded dimensions and a segment with both
    endpoints inside it, [analyzeLine] returns max(|dx|, |dy|) + 1 samples. *)
Theorem analyzeLine_sample_count (iter_order : gmap Z Q -> list (Z * Q))
    st frameNumber x1 y1 x2 y2 st1 frame :
  getFrame st frameNumber = (st1, frame) -> mat_empty frame = false ->
  mrows frame = frameHeight st -> mcols frame = frameWidth st ->
  0 <= x1 < frameWidth st -> 0 <= y1 < frameHeight st ->
  0 <= x2 < frameWidth st -> 0 <= y2 < frameHeight st ->
  exists samples,
    analyzeLine iter_order st frameNumber x1 y1 x2 y2 = (st1, Some samples) /\
    length samples = (Z.to_nat (Z.max (Z.abs (x2 - x1)) (Z.abs (y2 - y1))) + 1)%nat.
Proof.
  intros Hf Hne Hrows Hcols Hx1 Hy1 Hx2 Hy2.
  destruct (analyzeLine_samples_map iter_order st frameNumber x1 y1 x2 y2 st1 frame
              Hf Hne Hrows Hcols) as (l & Hl & Ha).
  destruct (getLinePixels_length_adjacent_aux (frameWidth st) (frameHeight st)
              x1 y1 x2 y2 Hx1 Hy1 Hx2 Hy2) as (l' & Hl' & Hlen & _).
  rewrite Hl in Hl'. injection Hl' as <-.
  eexists. split; [exact Ha|]. rewrite length_map. exact Hlen.
Qed.

(** Witness: frame 3 of [video_demo], along the diagonal (1,1)-(7,4). *)
Lemma analyzeLine_sample_count_witness :
  exists st1 frame, getFrame (engine_fresh table_red_green) 3 = (st1, frame) /\
    exists samples,
      analyzeLine map_to_list (engine_fresh table_red_green) 3 1 1 7 4 =
        (st1, Some samples) /\
      length samples = (Z.to_nat (Z.max (Z.abs (7 - 1)) (Z.abs (4 - 1))) + 1)%nat.
Proof.
  eexists _, _. split; [reflexivity|].
  eapply (analyzeLine_sample_count map_to_list (engine_fresh table_red_green) 3 1 1 7 4);
    (reflexivity || (simpl; lia)).
Defined.

(** A failed [loadVideo] closes the video that was open: the engine is not
    ready, every frame request returns the empty frame and every line
    analysis an empty vector, and neither changes the engine. *)
Theorem loadVideo_failure_closes (iter_order : gmap Z Q -> list (Z * Q)) st :
  let st' := fst (loadVideo st None) in
  snd (loadVideo st None) = false /\ IsReady st' = false /\
  (forall n, getFrame st' n = (st', Mat0)) /\
  (forall n x1 y1 x2 y2, analyzeLine iter_order st' n x1 y1 x2 y2 = (st', Some [])).
Proof.
  simpl. repeat split; reflexivity.
Qed.

(** [loadVideo] keeps [lastFrameNumber] and [currentFrame]: after a new
    video is loaded, asking for the index last served from the previous
    video returns the previous video's frame, and the new video is not
    decoded. *)
Theorem loadVideo_stale_frame st v :
  0 <= lastFrameNumber st < vf_frames v ->
  let st' := fst (loadVideo st (Some v)) in
  snd (loadVideo st (Some v)) = true /\ IsReady st' = true /\
  getFrame st' (lastFrameNumber st) = (st', currentFrame st).
Proof.
  intros Hn. simpl. split; [reflexivity|]. split.
  - unfold IsReady, isVideoLoaded. simpl. apply Z.ltb_lt. lia.
  - unfold getFrame. simpl. rewrite clamp_frame_in_range by lia.
    rewrite Z.eqb_refl. reflexivity.
Qed.

(** Witness: the cached engine (frame 2 of the demo video) loads the black
    video; frame 2 is then the red frame of the demo video. *)
Lemma loadVideo_stale_frame_witness :
  0 <= lastFrameNumber engine_cached < vf_frames video_black /\
  let st' := fst (loadVideo engine_cached (Some video_black)) in
  snd (loadVideo engine_cached (Some video_black)) = true /\ IsReady st' = true /\
  getFrame st' (lastFrameNumber engine_cached) = (st', currentFrame engine_cached).
Proof.
  assert (H : 0 <= lastFrameNumber engine_cached < vf_frames video_black)
    by (simpl; lia).
  split; [exact H|]. exact (loadVideo_stale_frame engine_cached video_black H).
Defined.

(* ------------------------------------------------------------------ *)
(** ** The colour resolver: what it can return *)

(** The scan returns its initial temperature or one of the scanned ones. *)
Lemma nearest_scan_member r g b entries minDistance closestTemp :
  nearest_scan r g b entries minDistance closestTemp = closestTemp \/
  exists k, (k, nearest_scan r g b entries minDistance closestTemp) ∈ entries.
Proof.
  revert minDistance closestTemp.
  induction entries as [|[k0 t0] rest IH]; intros minDistance closestTemp;
    [left; reflexivity|].
  simpl. destruct (match minDistance with None => true
                   | Some m => dist2 r g b k0 <? m end).
  - destruct (dist2 r g b k0 <? 100); [right; exists k0; left|].
    destruct (IH (Some (dist2 r g b k0)) t0) as [->|[k Hk]];
      right; [exists k0; left|exists k; right; exact Hk].
  - destruct (IH minDistance closestTemp) as [->|[k Hk]];
      [left; reflexivity|right; exists k; right; exact Hk].
Qed.

(** When no entry is below the threshold, the scan returns the temperature
    of an entry at the least distance, or its initial temperature when no
    entry beats [minDistance]. *)
Lemma nearest_scan_min r g b entries minDistance closestTemp :
  (forall k t, (k, t) ∈ entries -> 100 <= dist2 r g b k) ->
  let res := nearest_scan r g b entries minDistance closestTemp in
  (exists k, (k, res) ∈ entries /\
     (forall k' t', (k', t') ∈ entries -> dist2 r g b k <= dist2 r g b k') /\
     (forall m, minDistance = Some m -> dist2 r g b k < m)) \/
  (res = closestTemp /\
   (entries = [] \/ exists m, minDistance = Some m /\
      forall k' t', (k', t') ∈ entries -> m <= dist2 r g b k')).
Proof.
  revert minDistance closestTemp.
  induction entries as [|[k0 t0] rest IH]; intros minDistance closestTemp Hfar;
    [right; split; [reflexivity|left; reflexivity]|].
  cbv zeta. simpl.
  assert (Hfar0 : 100 <= dist2 r g b k0) by (apply (Hfar k0 t0); left).
  assert (Hfar' : forall k t, (k, t) ∈ rest -> 100 <= dist2 r g b k)
    by (intros k t H; apply (Hfar k t); right; exact H).
  destruct (match minDistance with None => true
            | Some m => dist2 r g b k0 <? m end) eqn:Hcl.
  - replace (dist2 r g b k0 <? 100) with false by (symmetry; apply Z.ltb_ge; lia).
    assert (Hlt : forall m, minDistance = Some m -> dist2 r g b k0 < m).
    { intros m ->. apply Z.ltb_lt. exact Hcl. }
    left.
    destruct (IH (Some (dist2 r g b k0)) t0 Hfar')
      as [(k & Hk & Hmin & Hbelow)|(-> & [->|(m & Hm & Hle)])].
    + exists k. split; [right; exact Hk|]. specialize (Hbelow _ eq_refl).
      split; [|intros m Hm; specialize (Hlt m Hm); lia].
      intros k' t' Hin. apply elem_of_cons in Hin as [Heq|Hin];
        [injection Heq as -> _; lia|exact (Hmin k' t' Hin)].
    + exists k0. split; [left|]. split; [|exact Hlt].
      intros k' t' Hin. apply elem_of_cons in Hin as [Heq|Hin];
        [injection Heq as -> _; lia|inversion Hin].
    + injection Hm as <-. exists k0. split; [left|]. split; [|exact Hlt].
      intros k' t' Hin. apply elem_of_cons in Hin as [Heq|Hin];
        [injection Heq as -> _; lia|exact (Hle k' t' Hin)].
  - destruct minDistance as [m|]; [|discriminate]. apply Z.ltb_ge in Hcl.
    destruct (IH (Some m) closestTemp Hfar')
      as [(k & Hk & Hmin & Hbelow)|(-> & [->|(m' & Hm & Hle)])].
    + left. exists k. split; [right; exact Hk|]. specialize (Hbelow _ eq_refl).
      split; [|intros m' Hm'; injection Hm' as <-; exact Hbelow].
      intros k' t' Hin. apply elem_of_cons in Hin as [Heq|Hin];
        [injection Heq as -> _; lia|exact (Hmin k' t' Hin)].
    + right. split; [reflexivity|]. right. exists m. split; [reflexivity|].
      intros k' t' Hin. apply elem_of_cons in Hin as [Heq|Hin];
        [injection Heq as -> _; lia|inversion Hin].
    + injection Hm as <-. right. split; [reflexivity|]. right.
      exists m. split; [reflexivity|].
      intros k' t' Hin. apply elem_of_cons in Hin as [Heq|Hin];
        [injection Heq as -> _; lia|exact (Hle k' t' Hin)].
Qed.

Section ResolverResult.

Context (iter_order : gmap Z Q -> list (Z * Q)).
Hypothesis iter_order_enumerates : forall m, iter_order m ≡ₚ map_to_list m.

Lemma getPixelTemperature_value_aux (tempMapping : gmap Z Q) r g b :
  (tempMapping = ∅ -> getPixelTemperature iter_order tempMapping r g b = (-1)%Q) /\
  (tempMapping <> ∅ ->
   exists k, tempMapping !! k = Some (getPixelTemperature iter_order tempMapping r g b)).
Proof.
  split.
  - intros ->. unfold getPixelTemperature. rewrite lookup_empty.
    pose proof (iter_order_enumerates ∅) as Hp.
    rewrite map_to_list_empty in Hp. apply Permutation_nil_r in Hp.
    rewrite Hp. reflexivity.
  - intros Hne. unfold getPixelTemperature.
    destruct (tempMapping !! packRGB r g b) as [t|] eqn:Ht; [exists (packRGB r g b); exact Ht|].
    destruct (iter_order tempMapping) as [|[k0 t0] rest] eqn:Hit.
    + exfalso. apply Hne. apply map_to_list_empty_iff.
      pose proof (iter_order_enumerates tempMapping) as Hp. rewrite Hit in Hp.
      apply Permutation_nil_l in Hp. symmetry. exact Hp.
    + assert (Hmem : forall k t, (k, t) ∈ iter_order tempMapping -> tempMapping !! k = Some t).
      { intros k t Hin. apply elem_of_map_to_list.
        rewrite <- (iter_order_enumerates tempMapping). exact Hin. }
      rewrite Hit in Hmem. simpl.
      destruct (dist2 r g b k0 <? 100); [exists k0; apply (Hmem k0 t0); left|].
      destruct (nearest_scan_member r g b rest (Some (dist2 r g b k0)) t0)
        as [->|[k Hk]]; [exists k0; apply (Hmem k0 t0); left|].
      exists k. apply (Hmem k). right. exact Hk.
Qed.

(** An empty table resolves every colour to the sentinel -1; a non-empty
    table resolves every colour to one of its temperatures. *)
Theorem getPixelTemperature_table_value (tempMapping : gmap Z Q) r g b :
  (tempMapping = ∅ -> getPixelTemperature iter_order tempMapping r g b = (-1)%Q) /\
  (tempMapping <> ∅ ->
   exists k, tempMapping !! k = Some (getPixelTemperature iter_order tempMapping r g b)).
Proof. apply getPixelTemperature_value_aux. Qed.

(** When the colour has no exact entry and no entry lies below the
    threshold (squared distance 100), the resolver returns the temperature of
    an entry at the least distance: an exact nearest-neighbour search. *)
Theorem getPixelTemperature_nearest (tempMapping : gmap Z Q) r g b :
  tempMapping <> ∅ ->
  tempMapping !! packRGB r g b = None ->
  map_Forall (fun k _ => 100 <= dist2 r g b k) tempMapping ->
  exists k, tempMapping !! k = Some (getPixelTemperature iter_order tempMapping r g b) /\
    map_Forall (fun k' _ => dist2 r g b k <= dist2 r g b k') tempMapping.
Proof.
  intros Hne Hnone Hfar. unfold getPixelTemperature. rewrite Hnone.
  assert (Hiff : forall k t, (k, t) ∈ iter_order tempMapping <-> tempMapping !! k = Some t).
  { intros k t. rewrite (iter_order_enumerates tempMapping). apply elem_of_map_to_list. }
  destruct (nearest_scan_min r g b (iter_order tempMapping) None (-1)%Q)
    as [(k & Hk & Hmin & _)|(_ & [Hnil|(m & Hm & _)])].
  - intros k t Hin. apply Hiff in Hin. exact (Hfar k t Hin).
  - exists k. split; [apply Hiff; exact Hk|].
    intros k' t' Hin. apply (Hmin k' t'). apply Hiff. exact Hin.
  - exfalso. apply Hne. apply map_to_list_empty_iff.
    pose proof (iter_order_enumerates tempMapping) as Hp. rewrite Hnil in Hp.
    apply Permutation_nil_l in Hp. symmetry. exact Hp.
  - discriminate.
Qed.

End ResolverResult.

(** Witness: the red and green table, in the order of [map_to_list]. *)
Lemma getPixelTemperature_table_value_witness :
  (forall m : gmap Z Q, map_to_list m ≡ₚ map_to_list m) /\
  ((table_red_green = ∅ -> getPixelTemperature map_to_list table_red_green 1 2 3 = (-1)%Q) /\
   (table_red_green <> ∅ ->
    exists k, table_red_green !! k =
              Some (getPixelTemperature map_to_list table_red_green 1 2 3))).
Proof.
  assert (H : forall m : gmap Z Q, map_to_list m ≡ₚ map_to_list m) by reflexivity.
  split; [exact H|]. exact (getPixelTemperature_table_value map_to_list H _ 1 2 3).
Defined.

(** Witness: pure blue against the red and green table. *)
Lemma getPixelTemperature_nearest_witness :
  (forall m : gmap Z Q, map_to_list m ≡ₚ map_to_list m) /\
  table_red_green <> ∅ /\ table_red_green !! packRGB 0 0 255 = None /\
  map_Forall (fun k _ => 100 <= dist2 0 0 255 k) table_red_green /\
  exists k, table_red_green !! k =
            Some (getPixelTemperature map_to_list table_red_green 0 0 255) /\
    map_Forall (fun k' _ => dist2 0 0 255 k <= dist2 0 0 255 k') table_red_green.
Proof.
  assert (H : forall m : gmap Z Q, map_to_list m ≡ₚ map_to_list m) by reflexivity.
  assert (H1 : table_red_green <> ∅).
  { intros He. assert (Hl : table_red_green !! packRGB 255 0 0 = None)
      by (rewrite He; apply lookup_empty).
    vm_compute in Hl. discriminate. }
  assert (H2 : table_red_green !! packRGB 0 0 255 = None) by (vm_compute; reflexivity).
  assert (H3 : map_Forall (fun k _ => 100 <= dist2 0 0 255 k) table_red_green).
  { apply map_Forall_to_list. vm_compute.
    repeat constructor; simpl; discriminate. }
  split; [exact H|]. split; [exact H1|]. split; [exact H2|]. split; [exact H3|].
  exact (getPixelTemperature_nearest map_to_list H _ 0 0 255 H1 H2 H3).
Defined.

(* ------------------------------------------------------------------ *)
(** ** The calibration table after a load *)

Lemma fold_insert_lookup (l : list (Z * Q)) (m : gmap Z Q) k :
  fold_left insert_entry l m !! k =
  match last (filter (fun e => e.1 = k) l) with
  | Some e => Some e.2
  | None => m !! k
  end.
Proof.
  induction l as [|e l IH] using rev_ind; [reflexivity|].
  rewrite fold_left_app, filter_app. simpl. unfold insert_entry at 1.
  rewrite filter_cons, filter_nil.
  destruct (decide (e.1 = k)) as [<-|Hne].
  - rewrite last_snoc. apply lookup_insert_eq.
  - rewrite app_nil_r, lookup_insert_ne by (intros H; apply Hne; exact H).
    exact IH.
Qed.

(** After a load, the temperature of a key is the one of the last valid row
    of the file with that key; a key that no valid row defines keeps its
    earlier entry (or absence). *)
Theorem loadTempMapping_lookup (stof : string -> option Q) st contents k :
  tempMapping (fst (loadTempMapping stof st (Some contents))) !! k =
  match last (filter (fun e => e.1 = k) (parsed_entries stof contents)) with
  | Some e => Some e.2
  | None => tempMapping st !! k
  end.
Proof.
  unfold loadTempMapping, parsed_entries. rewrite load_rows_spec. simpl.
  apply fold_insert_lookup.
Qed.

Lemma mapRGB_packRGB r g b :
  channel_ok r -> channel_ok g -> channel_ok b ->
  mapR (packRGB r g b) = r /\ mapG (packRGB r g b) = g /\ mapB (packRGB r g b) = b.
Proof.
  intros Hr Hg Hb. rewrite packRGB_unwrapped by assumption.
  unfold channel_ok in *. unfold mapR, mapG, mapB.
  rewrite !Z.shiftr_lor, !Z.land_lor_distr_l.
  rewrite (Z.shiftr_shiftl_l r 16 16), (Z.shiftr_shiftl_r g 8 16),
    (Z.shiftr_shiftl_l r 16 8), (Z.shiftr_shiftl_l g 8 8) by lia.
  change (16 - 8) with 8. change (8 - 16) with (-8).
  rewrite !Z.sub_diag, !Z.shiftl_0_r.
  rewrite (shiftr_small g 8), (shiftr_small b 16), (shiftr_small b 8)
    by (change (2 ^ 8) with 256 || change (2 ^ 16) with 65536; lia).
  rewrite !land_shiftl_255 by lia.
  rewrite !land_255_small by lia. rewrite ?Z.land_0_l, ?Z.lor_0_r, ?Z.lor_0_l.
  repeat split; reflexivity.
Qed.

Lemma row_entry_key (stof : string -> option Q) line k t :
  row_entry stof line = Some (k, t) -> key_canonical k.
Proof.
  unfold row_entry.
  destruct (6 <=? length (getlines char_comma line))%nat; [|discriminate].
  destruct (parse_row stof _) as [[[[r g] b] temp]|]; [|discriminate].
  destruct (rgb_valid r g b) eqn:Hv; [|discriminate].
  intros H. injection H as <- _.
  unfold rgb_valid in Hv. rewrite !Bool.andb_true_iff, !Z.leb_le in Hv.
  unfold key_canonical. destruct (mapRGB_packRGB r g b) as (-> & -> & ->);
    unfold channel_ok; [lia..|reflexivity].
Qed.

(** Loading a file keeps the table's keys canonical: every key is the
    packing of three channels in [0,255], so the scan of the resolver
    unpacks it to the colour of its row. *)
Theorem loadTempMapping_keys_canonical (stof : string -> option Q) st file :
  map_Forall (fun k _ => key_canonical k) (tempMapping st) ->
  map_Forall (fun k _ => key_canonical k)
    (tempMapping (fst (loadTempMapping stof st file))).
Proof.
  intros Hst. destruct file as [contents|]; [|exact Hst].
  unfold loadTempMapping, parsed_entries. rewrite load_rows_spec. simpl.
  assert (Hrows : Forall (fun e => key_canonical e.1)
                    (omap (row_entry stof) (tl (getlines char_newline contents)))).
  { apply Forall_forall. intros [k t] Hin. apply list_elem_of_omap in Hin
      as (line & _ & Hl). exact (row_entry_key stof line k t Hl). }
  revert Hrows Hst.
  generalize (omap (row_entry stof) (tl (getlines char_newline contents))) as l.
  generalize (tempMapping st) as m.
  intros m l. revert m. induction l as [|[k t] l IH]; intros m Hrows Hm; [exact Hm|].
  simpl. apply Forall_cons in Hrows as [Hk Hrows]. apply IH; [exact Hrows|].
  unfold insert_entry. simpl. apply map_Forall_insert_2; [exact Hk|exact Hm].
Qed.

(** Witness: the one-row file loaded into an empty table. *)
Lemma loadTempMapping_keys_canonical_witness :
  map_Forall (fun k _ => key_canonical k) (tempMapping (engine_fresh ∅)) /\
  map_Forall (fun k _ => key_canonical k)
    (tempMapping (fst (loadTempMapping stof_decimal (engine_fresh ∅) (Some csv_one_row)))).
Proof.
  assert (H : map_Forall (fun k _ => key_canonical k) (tempMapping (engine_fresh ∅)))
    by apply map_Forall_empty.
  split; [exact H|].
  exact (loadTempMapping_keys_canonical stof_decimal (engine_fresh ∅) (Some csv_one_row) H).
Defined.

(* ------------------------------------------------------------------ *)
(** ** The binding *)

Lemma GetNumberParam_ok args i name d :
  GetNumberParam args i name = NapiOk d -> nth_error args i = Some (JSNumber d).
Proof.
  unfold GetNumberParam. destruct (nth_error args i) as [[q| | | |]|]; try discriminate.
  intros H. injection H as <-. reflexivity.
Qed.

Lemma int_param_ok args i name z :
  int_param args i name = NapiOk z ->
  exists d, nth_error args i = Some (JSNumber d) /\ double_to_int d = Some z.
Proof.
  unfold int_param. destruct (GetNumberParam args i name) as [d|e|] eqn:Hd;
    simpl; try discriminate.
  destruct (double_to_int d) as [z'|] eqn:Hz; [|discriminate].
  intros H. injection H as <-. exists d. split; [|exact Hz].
  exact (GetNumberParam_ok _ _ _ _ Hd).
Qed.

(** Every call of the binding's [AnalyzeLine] that throws leaves the engine
    as it was; every call that returns an array has read integer
    arguments with a frame index in [0, totalFrames), on which the clamp of
    [getFrame] is the identity, and returns the samples of [analyzeLine]
    at that index. *)
Theorem AnalyzeLine_outcomes (iter_order : gmap Z Q -> list (Z * Q)) st args :
  let '(st', res) := AnalyzeLine iter_order st args in
  (forall e, res = NapiThrow e -> st' = st) /\
  (forall v, res = NapiOk v ->
   exists f x1 y1 x2 y2,
     int_param args 0 "frameNum" = NapiOk f /\ int_param args 1 "x1" = NapiOk x1 /\
     int_param args 2 "y1" = NapiOk y1 /\ int_param args 3 "x2" = NapiOk x2 /\
     int_param args 4 "y2" = NapiOk y2 /\
     0 <= f < totalFrames st /\ clamp_frame (totalFrames st) f = f /\
     analyzeLine iter_order st f x1 y1 x2 y2 = (st', Some v)).
Proof.
  unfold AnalyzeLine.
  destruct (length args <? 5)%nat; [split; [reflexivity|discriminate]|].
  destruct (int_param args 0 "frameNum") as [f|e|] eqn:Hf; simpl;
    [|split; [reflexivity|discriminate]..].
  destruct (int_param args 1 "x1") as [x1|e|] eqn:Hx1; simpl;
    [|split; [reflexivity|discriminate]..].
  destruct (int_param args 2 "y1") as [y1|e|] eqn:Hy1; simpl;
    [|split; [reflexivity|discriminate]..].
  destruct (int_param args 3 "x2") as [x2|e|] eqn:Hx2; simpl;
    [|split; [reflexivity|discriminate]..].
  destruct (int_param args 4 "y2") as [y2|e|] eqn:Hy2; simpl;
    [|split; [reflexivity|discriminate]..].
  destruct ((f <? 0) || (totalFrames st <=? f)) eqn:Hr;
    [split; [reflexivity|discriminate]|].
  apply Bool.orb_false_iff in Hr as [H0 H1].
  apply Z.ltb_ge in H0. apply Z.leb_gt in H1.
  destruct (analyzeLine iter_order st f x1 y1 x2 y2) as [st' [v|]] eqn:Ha;
    (split; [discriminate|]); [|discriminate].
  intros v' Hv. injection Hv as <-.
  exists f, x1, y1, x2, y2. repeat split; try assumption; try lia.
  apply clamp_frame_in_range. lia.
Qed.

Lemma double_to_int_bounded (d : Q) (n : Z) :
  (0 <= d)%Q -> (d < inject_Z n)%Q -> n <= 2 ^ 31 ->
  exists z, double_to_int d = Some z /\ 0 <= z < n.
Proof.
  destruct d as [num den]. unfold Qle, Qlt, inject_Z. simpl. intros H0 Hn Hmax.
  unfold double_to_int. simpl.
  rewrite Z.quot_div_nonneg by lia.
  assert (0 <= num / Zpos den) by (apply Z.div_pos; lia).
  assert (num / Zpos den < n) by (apply Z.div_lt_upper_bound; lia).
  exists (num / Zpos den). split; [|lia].
  replace ((- 2 ^ 31 <=? num / Zpos den) && (num / Zpos den <? 2 ^ 31)) with true;
    [reflexivity|].
  symmetry. rewrite Bool.andb_true_iff, Z.leb_le, Z.ltb_lt. lia.
Qed.

Lemma js_clamp_bounds (v : Q) (n : Z) :
  1 <= n ->
  (0 <= js_clamp v (inject_Z (n - 1)) /\ js_clamp v (inject_Z (n - 1)) < inject_Z n)%Q.
Proof.
  intros Hn. unfold js_clamp. split; [apply Q.le_max_l|].
  apply Q.max_lub_lt.
  - unfold Qlt, inject_Z. simpl. lia.
  - apply (Qle_lt_trans _ (inject_Z (n - 1))); [apply Q.le_min_r|].
    unfold Qlt, inject_Z. simpl. lia.
Qed.

(** What the server's checks guarantee to the binding: for a request that
    [handleAnalyzeLine] accepts, on an engine whose [videoInfo] the server
    read, both calls of [analyzeLine] read integer arguments, the frame
    index lies in [0, totalFrames) so the binding's range check does not
    throw, and both endpoints of each line lie in the frame. *)
Theorem handleAnalyzeLine_accepted (iter_order : gmap Z Q -> list (Z * Q))
    st frameNum line1 line2 f c1 c2 :
  validate_analyze_request (totalFrames st) (frameWidth st) (frameHeight st)
    frameNum line1 line2 = Some (f, c1, c2) ->
  totalFrames st < 2 ^ 31 ->
  1 <= frameWidth st < 2 ^ 31 -> 1 <= frameHeight st < 2 ^ 31 ->
  forall c, c = c1 \/ c = c2 ->
  exists fi x1 y1 x2 y2,
    0 <= fi < totalFrames st /\
    in_frame (frameWidth st) (frameHeight st) x1 y1 = true /\
    in_frame (frameWidth st) (frameHeight st) x2 y2 = true /\
    AnalyzeLine iter_order st (analyze_args f c) =
    (let '(st', r) := analyzeLine iter_order st fi x1 y1 x2 y2 in
     (st', match r with Some v => NapiOk v | None => NapiUB end)).
Proof.
  intros Hv Ht Hw Hh c Hc.
  unfold validate_analyze_request in Hv.
  destruct frameNum as [q| | | |]; try discriminate.
  destruct (negb (Qle_bool 0 q) || Qle_bool (inject_Z (totalFrames st)) q) eqn:Hq;
    [discriminate|].
  apply Bool.orb_false_iff in Hq as [Hq0 Hq1].
  apply Bool.negb_false_iff, Qle_bool_iff in Hq0.
  assert (Hq1' : (q < inject_Z (totalFrames st))%Q).
  { apply Qnot_le_lt. intros Hle. apply Qle_bool_iff in Hle. congruence. }
  assert (Hline : forall l c', validateLine (frameWidth st) (frameHeight st) l = Some c' ->
     exists qx1 qy1 qx2 qy2, c' = (qx1, qy1, qx2, qy2) /\
       (0 <= qx1 /\ qx1 < inject_Z (frameWidth st) /\
        0 <= qy1 /\ qy1 < inject_Z (frameHeight st) /\
        0 <= qx2 /\ qx2 < inject_Z (frameWidth st) /\
        0 <= qy2 /\ qy2 < inject_Z (frameHeight st))%Q).
  { intros [[x1| | | |] [y1| | | |] [x2| | | |] [y2| | | |]] c' Hl;
      unfold validateLine in Hl; simpl in Hl; try discriminate.
    injection Hl as <-.
    destruct (js_clamp_bounds x1 (frameWidth st)), (js_clamp_bounds y1 (frameHeight st)),
      (js_clamp_bounds x2 (frameWidth st)), (js_clamp_bounds y2 (frameHeight st)); try lia.
    eexists _, _, _, _. split; [reflexivity|]. repeat split; assumption. }
  assert (Hc' : f = q /\ exists l, validateLine (frameWidth st) (frameHeight st) l = Some c).
  { destruct line1 as [l1|], line2 as [l2|]; try discriminate.
    destruct (validateLine (frameWidth st) (frameHeight st) l1) as [d1|] eqn:H1;
      [|discriminate].
    destruct (validateLine (frameWidth st) (frameHeight st) l2) as [d2|] eqn:H2;
      [|discriminate].
    injection Hv as <- <- <-. split; [reflexivity|].
    destruct Hc as [->| ->]; eexists; eassumption. }
  destruct Hc' as [-> [l Hl]]. clear Hv.
  destruct (Hline l c Hl) as (qx1 & qy1 & qx2 & qy2 & -> & Hb).
  destruct Hb as (Ha1 & Ha2 & Hb1 & Hb2 & Hc1 & Hc2 & Hd1 & Hd2).
  destruct (double_to_int_bounded q (totalFrames st)) as (fi & Hfi & Hfr); [auto|auto|lia|].
  destruct (double_to_int_bounded qx1 (frameWidth st)) as (x1 & Hx1 & Hx1r); [auto|auto|lia|].
  destruct (double_to_int_bounded qy1 (frameHeight st)) as (y1 & Hy1 & Hy1r); [auto|auto|lia|].
  destruct (double_to_int_bounded qx2 (frameWidth st)) as (x2 & Hx2 & Hx2r); [auto|auto|lia|].
  destruct (double_to_int_bounded qy2 (frameHeight st)) as (y2 & Hy2 & Hy2r); [auto|auto|lia|].
  exists fi, x1, y1, x2, y2. split; [exact Hfr|].
  split; [unfold in_frame; rewrite !Bool.andb_true_iff, !Z.leb_le, !Z.ltb_lt; lia|].
  split; [unfold in_frame; rewrite !Bool.andb_true_iff, !Z.leb_le, !Z.ltb_lt; lia|].
  unfold AnalyzeLine, analyze_args, int_param, GetNumberParam. simpl.
  rewrite Hfi, Hx1, Hy1, Hx2, Hy2. simpl.
  replace ((fi <? 0) || (totalFrames st <=? fi)) with false
    by (symmetry; apply Bool.orb_false_iff; split; [apply Z.ltb_ge|apply Z.leb_gt]; lia).
  reflexivity.
Qed.

(** Witness: frame 9.5 of the 10-frame demo video, with the two lines of
    [request_line_a] and [request_line_b]. *)
Lemma handleAnalyzeLine_accepted_witness :
  exists f c1 c2,
    validate_analyze_request (totalFrames (engine_fresh table_red_green))
      (frameWidth (engine_fresh table_red_green)) (frameHeight (engine_fresh table_red_green))
      (JSNumber (19 # 2)) (Some request_line_a) (Some request_line_b) = Some (f, c1, c2) /\
    totalFrames (engine_fresh table_red_green) < 2 ^ 31 /\
    1 <= frameWidth (engine_fresh table_red_green) < 2 ^ 31 /\
    1 <= frameHeight (engine_fresh table_red_green) < 2 ^ 31 /\
    exists fi x1 y1 x2 y2,
      0 <= fi < totalFrames (engine_fresh table_red_green) /\
      in_frame (frameWidth (engine_fresh table_red_green))
        (frameHeight (engine_fresh table_red_green)) x1 y1 = true /\
      in_frame (frameWidth (engine_fresh table_red_green))
        (frameHeight (engine_fresh table_red_green)) x2 y2 = true /\
      AnalyzeLine map_to_list (engine_fresh table_red_green) (analyze_args f c1) =
      (let '(st', r) := analyzeLine map_to_list (engine_fresh table_red_green) fi x1 y1 x2 y2 in
       (st', match r with Some v => NapiOk v | None => NapiUB end)).
Proof.
  eexists _, _, _. split; [reflexivity|].
  assert (Ht : totalFrames (engine_fresh table_red_green) < 2 ^ 31) by (simpl; lia).
  assert (Hw : 1 <= frameWidth (engine_fresh table_red_green) < 2 ^ 31) by (simpl; lia).
  assert (Hh : 1 <= frameHeight (engine_fresh table_red_green) < 2 ^ 31) by (simpl; lia).
  split; [exact Ht|]. split; [exact Hw|]. split; [exact Hh|].
  exact (handleAnalyzeLine_accepted map_to_list (engine_fresh table_red_green)
           (JSNumber (19 # 2)) (Some request_line_a) (Some request_line_b) _ _ _
           eq_refl Ht Hw Hh _ (or_introl eq_refl)).
Defined.

Lemma int_param_length args i name z :
  int_param args i name = NapiOk z -> (i < length args)%nat.
Proof.
  intros H. destruct (int_param_ok _ _ _ _ H) as (d & Hn & _).
  apply nth_error_Some. rewrite Hn. discriminate.
Qed.

Section PixelBinding.

Context (iter_order : gmap Z Q -> list (Z * Q)).
Hypothesis iter_order_enumerates : forall m, iter_order m ≡ₚ map_to_list m.

(** The binding's [GetPixelTemperature] on integer arguments: a channel
    outside [0,255] throws a [RangeError]; with no calibration at all the
    answer is [null]; with a non-empty calibration of non-negative
    temperatures the answer is never [null] but one of the calibrated
    temperatures. *)
Theorem GetPixelTemperature_binding_result st args r g b :
  int_param args 0 "r" = NapiOk r -> int_param args 1 "g" = NapiOk g ->
  int_param args 2 "b" = NapiOk b ->
  let res := GetPixelTemperature iter_order st args in
  (~ (channel_ok r /\ channel_ok g /\ channel_ok b) ->
   res = NapiThrow (RangeError "RGB values must be between 0 and 255")) /\
  (channel_ok r /\ channel_ok g /\ channel_ok b -> tempMapping st = ∅ ->
   res = NapiOk None) /\
  (channel_ok r /\ channel_ok g /\ channel_ok b -> tempMapping st <> ∅ ->
   map_Forall (fun _ t => 0 <= t)%Q (tempMapping st) ->
   exists k t, tempMapping st !! k = Some t /\ res = NapiOk (Some t)).
Proof.
  intros Hr Hg Hb. cbv zeta. unfold GetPixelTemperature.
  pose proof (int_param_length _ _ _ _ Hb) as Hlen.
  replace (length args <? 3)%nat with false by (symmetry; apply Nat.ltb_ge; lia).
  rewrite Hr. simpl. rewrite Hg. simpl. rewrite Hb. simpl.
  destruct ((r <? 0) || (255 <? r) || (g <? 0) || (255 <? g) || (b <? 0) || (255 <? b))
    eqn:Hrange.
  - rewrite !Bool.orb_true_iff, !Z.ltb_lt in Hrange. unfold channel_ok.
    split; [reflexivity|]. split; intros Hok; exfalso; lia.
  - rewrite !Bool.orb_false_iff, !Z.ltb_ge in Hrange. unfold channel_ok.
    split; [intros Hno; exfalso; apply Hno; lia|].
    destruct (getPixelTemperature_value_aux iter_order iter_order_enumerates
                (tempMapping st) r g b) as [Hempty Hsome].
    split.
    + intros _ He. rewrite (Hempty He). reflexivity.
    + intros _ Hne Hpos. destruct (Hsome Hne) as [k Hk].
      exists k, (getPixelTemperature iter_order (tempMapping st) r g b).
      split; [exact Hk|].
      replace (Qle_bool 0 (getPixelTemperature iter_order (tempMapping st) r g b)) with true;
        [reflexivity|].
      symmetry. apply Qle_bool_iff. exact (Hpos k _ Hk).
Qed.

End PixelBinding.

(** Witness: the query (254, 1, 1) against the red and green table. *)
Lemma GetPixelTemperature_binding_result_witness :
  (forall m : gmap Z Q, map_to_list m ≡ₚ map_to_list m) /\
  int_param [JSNumber 254; JSNumber 1; JSNumber 1] 0 "r" = NapiOk 254 /\
  int_param [JSNumber 254; JSNumber 1; JSNumber 1] 1 "g" = NapiOk 1 /\
  int_param [JSNumber 254; JSNumber 1; JSNumber 1] 2 "b" = NapiOk 1 /\
  let res := GetPixelTemperature map_to_list (engine_fresh table_red_green)
               [JSNumber 254; JSNumber 1; JSNumber 1] in
  (~ (channel_ok 254 /\ channel_ok 1 /\ channel_ok 1) ->
   res = NapiThrow (RangeError "RGB values must be between 0 and 255")) /\
  (channel_ok 254 /\ channel_ok 1 /\ channel_ok 1 ->
   tempMapping (engine_fresh table_red_green) = ∅ -> res = NapiOk None) /\
  (channel_ok 254 /\ channel_ok 1 /\ channel_ok 1 ->
   tempMapping (engine_fresh table_red_green) <> ∅ ->
   map_Forall (fun _ t => 0 <= t)%Q (tempMapping (engine_fresh table_red_green)) ->
   exists k t, tempMapping (engine_fresh table_red_green) !! k = Some t /\
               res = NapiOk (Some t)).
Proof.
  assert (H : forall m : gmap Z Q, map_to_list m ≡ₚ map_to_list m) by reflexivity.
  assert (Hr : int_param [JSNumber 254; JSNumber 1; JSNumber 1] 0 "r" = NapiOk 254)
    by reflexivity.
  assert (Hg : int_param [JSNumber 254; JSNumber 1; JSNumber 1] 1 "g" = NapiOk 1)
    by reflexivity.
  assert (Hb : int_param [JSNumber 254; JSNumber 1; JSNumber 1] 2 "b" = NapiOk 1)
    by reflexivity.
  split; [exact H|]. split; [exact Hr|]. split; [exact Hg|]. split; [exact Hb|].
  exact (GetPixelTemperature_binding_result map_to_list H
           (engine_fresh table_red_green) _ _ _ _ Hr Hg Hb).
Defined.

(* ------------------------------------------------------------------ *)
(** ** The base64 encoder *)

Definition is_byte (b : Z) : Prop := 0 <= b <= 255.

Lemma b64_alphabet n :
  0 <= n < 64 -> b64_index (b64_char n) = Some n /\ Ascii.eqb (b64_char n) "="%char = false.
Proof.
  intros Hn.
  assert (Hall : forallb (fun k => match b64_index (b64_char k) with
                                   | Some m => (m =? k) && negb (Ascii.eqb (b64_char k) "="%char)
                                   | None => false end)
                   (map Z.of_nat (seq 0 64)) = true) by (vm_compute; reflexivity).
  rewrite forallb_forall in Hall.
  specialize (Hall n). rewrite in_map_iff in Hall.
  destruct (b64_index (b64_char n)) as [m|] eqn:Hm.
  - assert (Hc : (m =? n) && negb (Ascii.eqb (b64_char n) "="%char) = true).
    { apply Hall. exists (Z.to_nat n). split; [lia|]. apply in_seq. lia. }
    apply Bool.andb_true_iff in Hc as [Hc1 Hc2]. apply Z.eqb_eq in Hc1. subst m.
    split; [reflexivity|]. apply Bool.negb_true_iff. exact Hc2.
  - exfalso. assert (Hc : false = true).
    { apply Hall. exists (Z.to_nat n). split; [lia|]. apply in_seq. lia. }
    discriminate.
Qed.

Lemma b64_sextet v k : 0 <= k -> Z.land (Z.shiftr v k) 63 = (v / 2 ^ k) mod 64.
Proof.
  intros Hk. change 63 with (Z.ones 6).
  rewrite Z.land_ones, Z.shiftr_div_pow2 by lia. reflexivity.
Qed.

Lemma land_mul_pow2_low a b n :
  0 <= n -> 0 <= b < 2 ^ n -> Z.land (a * 2 ^ n) b = 0.
Proof.
  intros Hn Hb.
  assert (Hb' : b = Z.land b (Z.ones n)) by (rewrite Z.land_ones, Z.mod_small; lia).
  rewrite Hb', Z.land_comm, <- Z.land_assoc, (Z.land_comm (Z.ones n)), Z.land_ones by lia.
  rewrite Z.mod_mul by (apply Z.pow_nonzero; lia). apply Z.land_0_r.
Qed.

Lemma lor_bytes b0 b1 b2 :
  is_byte b0 -> is_byte b1 -> is_byte b2 ->
  Z.lor (Z.lor (Z.lor 0 (Z.shiftl b0 16)) (Z.shiftl b1 8)) b2 = b0 * 65536 + b1 * 256 + b2.
Proof.
  unfold is_byte. intros H0 H1 H2.
  rewrite Z.lor_0_l, !Z.shiftl_mul_pow2 by lia.
  assert (L1 : Z.land (b0 * 2 ^ 16) (b1 * 2 ^ 8) = 0).
  { apply land_mul_pow2_low; [lia|]. change (2 ^ 16) with 65536. change (2 ^ 8) with 256. lia. }
  rewrite <- (Z.lxor_lor _ _ L1), <- (Z.add_nocarry_lxor _ _ L1).
  assert (L2 : Z.land ((b0 * 256 + b1) * 2 ^ 8) b2 = 0).
  { apply land_mul_pow2_low; [lia|]. change (2 ^ 8) with 256. lia. }
  replace (b0 * 2 ^ 16 + b1 * 2 ^ 8) with ((b0 * 256 + b1) * 2 ^ 8)
    by (change (2 ^ 16) with 65536; change (2 ^ 8) with 256; ring).
  rewrite <- (Z.lxor_lor _ _ L2), <- (Z.add_nocarry_lxor _ _ L2).
  change (2 ^ 8) with 256. ring.
Qed.

Lemma nth_drop_at (buffer : list Z) i j :
  0 <= i -> 0 <= j ->
  nth (Z.to_nat (i + j)) buffer 0 = nth (Z.to_nat j) (drop (Z.to_nat i) buffer) 0.
Proof. intros Hi Hj. rewrite nth_skipn, Z2Nat.inj_add by lia. reflexivity. Qed.

Lemma b64_triple b0 b1 b2 :
  is_byte b0 -> is_byte b1 -> is_byte b2 ->
  let v := b0 * 65536 + b1 * 256 + b2 in
  (v / 2 ^ 18) mod 64 * 4 + (v / 2 ^ 12) mod 64 / 16 = b0 /\
  (v / 2 ^ 12) mod 64 mod 16 * 16 + (v / 2 ^ 6) mod 64 / 4 = b1 /\
  (v / 2 ^ 6) mod 64 mod 4 * 64 + (v / 2 ^ 0) mod 64 = b2.
Proof.
  unfold is_byte. intros H0 H1 H2.
  change (2 ^ 18) with 262144. change (2 ^ 12) with 4096.
  change (2 ^ 6) with 64. change (2 ^ 0) with 1. rewrite Z.div_1_r.
  Z.div_mod_to_equations. repeat split; lia.
Qed.

Lemma nth_is_byte (l : list Z) n : Forall is_byte l -> is_byte (nth n l 0).
Proof.
  intros Hl. destruct (Nat.lt_ge_cases n (length l)) as [Hn|Hn].
  - rewrite Forall_nth in Hl. apply Hl. exact Hn.
  - rewrite nth_overflow by exact Hn. unfold is_byte. lia.
Qed.

Lemma b64_loop_done buffer len i fuel : len <= i -> b64_loop buffer len i fuel = EmptyString.
Proof.
  intros H. destruct fuel as [|fuel]; simpl; [reflexivity|].
  destruct (Z.ltb_spec i len); [lia|reflexivity].
Qed.

Lemma b64_val_bytes buffer len i :
  Forall is_byte buffer ->
  b64_val buffer len i =
    (if i + 0 <? len then nth (Z.to_nat (i + 0)) buffer 0 else 0) * 65536 +
    (if i + 1 <? len then nth (Z.to_nat (i + 1)) buffer 0 else 0) * 256 +
    (if i + 2 <? len then nth (Z.to_nat (i + 2)) buffer 0 else 0).
Proof.
  intros Hb.
  assert (Hbt : forall (c : bool) n, is_byte (if c then nth n buffer 0 else 0)).
  { intros [|] n; [apply nth_is_byte, Hb | unfold is_byte; lia]. }
  rewrite <- lor_bytes by apply Hbt. unfold b64_val.
  destruct (i + 0 <? len), (i + 1 <? len), (i + 2 <? len); reflexivity.
Qed.

Lemma string_app_cons c s1 s2 : (String c s1 ++ s2)%string = String c (s1 ++ s2)%string.
Proof. reflexivity. Qed.

Lemma string_app_empty s : (EmptyString ++ s)%string = s.
Proof. reflexivity. Qed.

Ltac b64_ltb :=
  match goal with
  | |- context [?a <? ?b] =>
      (replace (a <? b) with true
         by (symmetry; apply Z.ltb_lt; Z.div_mod_to_equations; lia)) ||
      (replace (a <? b) with false
         by (symmetry; apply Z.ltb_ge; Z.div_mod_to_equations; lia))
  end.

Ltac b64_chars_simpl :=
  repeat match goal with
  | |- context [b64_index (b64_char (?v mod 64))] =>
      rewrite (proj1 (b64_alphabet (v mod 64) (Z.mod_pos_bound v 64 eq_refl)))
  | |- context [Ascii.eqb (b64_char (?v mod 64)) "="%char] =>
      rewrite (proj2 (b64_alphabet (v mod 64) (Z.mod_pos_bound v 64 eq_refl)))
  end.

Lemma b64_loop_decode buffer fuel i :
  Forall is_byte buffer ->
  let len := Z.of_nat (length buffer) in
  0 <= i -> i mod 3 = 0 -> i <= len -> (len - i + 2) / 3 <= Z.of_nat fuel ->
  b64_decode (list_ascii_of_string (b64_loop buffer len i fuel)) =
    Some (drop (Z.to_nat i) buffer) /\
  Z.of_nat (String.length (b64_loop buffer len i fuel)) = 4 * ((len - i + 2) / 3).
Proof.
  intros Hb len. revert i. induction fuel as [|fuel IH]; intros i Hi Hm Hle Hf.
  - assert (i = len) by (Z.div_mod_to_equations; lia). subst i.
    unfold len. rewrite Nat2Z.id, drop_all, Z.sub_diag. split; reflexivity.
  - cbn [b64_loop]. destruct (Z.ltb_spec i len) as [Hlt|Hge].
    2: { assert (i = len) by lia. subst i.
         unfold len. rewrite Nat2Z.id, drop_all, Z.sub_diag. split; reflexivity. }
    unfold b64_group. rewrite b64_val_bytes by exact Hb.
    rewrite !nth_drop_at by lia.
    assert (Hlen : Z.of_nat (length (drop (Z.to_nat i) buffer)) = len - i)
      by (rewrite length_drop; unfold len; lia).
    assert (Hbr : Forall is_byte (drop (Z.to_nat i) buffer)) by (apply Forall_drop, Hb).
    destruct (drop (Z.to_nat i) buffer) as [|b0 [|b1 [|b2 rest]]] eqn:Hrest;
      cbn [length] in Hlen; [lia| | |].
    all: change (Z.to_nat 0) with 0%nat; change (Z.to_nat 1) with 1%nat;
      change (Z.to_nat 2) with 2%nat; cbn [nth].
    all: change (18 - 6 * 0) with 18; change (18 - 6 * 1) with 12;
      change (18 - 6 * 2) with 6; change (18 - 6 * 3) with 0.
    all: repeat b64_ltb.
    all: rewrite ?b64_sextet by lia.
    all: pose proof Hbr as Hbr'; rewrite !Forall_cons in Hbr'.
    1,2: rewrite (b64_loop_done _ _ (i + 3)) by lia.
    3: assert (Hrest' : drop (Z.to_nat (i + 3)) buffer = rest)
         by (rewrite Z2Nat.inj_add, <- drop_drop, Hrest by lia; reflexivity);
       destruct (IH (i + 3)) as [IHd IHl];
         [lia | Z.div_mod_to_equations; lia | lia | Z.div_mod_to_equations; lia |];
       rewrite Hrest' in IHd.
    all: rewrite !string_app_cons, string_app_empty.
    all: cbn [list_ascii_of_string b64_decode String.length].
    all: b64_chars_simpl; rewrite ?Ascii.eqb_refl; cbn [andb length Nat.eqb option_map].
    3: rewrite IHd; cbn [option_map].
    all: destruct Hbr' as (Hb0&Hbr'); try destruct Hbr' as (Hb1&Hbr');
      try destruct Hbr' as (Hb2&_).
    1: destruct (b64_triple b0 0 0) as (E0&_); [exact Hb0|unfold is_byte; lia..|].
    2: destruct (b64_triple b0 b1 0) as (E0&E1&_); [exact Hb0|exact Hb1|unfold is_byte; lia|].
    3: destruct (b64_triple b0 b1 b2) as (E0&E1&E2); [exact Hb0|exact Hb1|exact Hb2|].
    all: rewrite ?E0, ?E1, ?E2; split; [reflexivity|].
    all: Z.div_mod_to_equations; lia.
Qed.

(** The encoder of [GetFrameBase64] (binding.cpp, lines 206-229) is standard
    base64: over a buffer of bytes it outputs [4 * ceil (n / 3)] characters,
    which an RFC 4648 decoder maps back to the buffer. *)
Lemma b64_encode_roundtrip (buffer : list Z) :
  Forall is_byte buffer ->
  b64_decode (list_ascii_of_string (b64_encode buffer)) = Some buffer /\
  Z.of_nat (String.length (b64_encode buffer)) =
    4 * ((Z.of_nat (length buffer) + 2) / 3).
Proof.
  intros Hb. unfold b64_encode.
  destruct (b64_loop_decode buffer (length buffer) 0 Hb) as [Hd Hl];
    [lia | reflexivity | lia | Z.div_mod_to_equations; lia |].
  rewrite Z.sub_0_r in Hl. split; [exact Hd | exact Hl].
Qed.

Lemma b64_encode_roundtrip_witness :
  Forall is_byte [77; 97; 110] /\
  b64_decode (list_ascii_of_string (b64_encode [77; 97; 110])) = Some [77; 97; 110] /\
  Z.of_nat (String.length (b64_encode [77; 97; 110])) =
    4 * ((Z.of_nat (length [77; 97; 110]) + 2) / 3).
Proof.
  assert (H : Forall is_byte [77; 97; 110])
    by (repeat constructor; unfold is_byte; lia).
  split; [exact H | apply (b64_encode_roundtrip [77; 97; 110] H)].
Defined.

Section FrameBase64.
Variable imencode : Mat -> list Z.
Hypothesis imencode_bytes : forall m, Forall is_byte (imencode m).

(** [GetFrameBase64] answers [null] exactly when the frame [getFrame] serves
    is empty; otherwise its answer is the JPEG data-URL prefix followed by a
    base64 text that decodes to the JPEG bytes of the served frame. *)
Lemma GetFrameBase64_payload st n :
  match GetFrameBase64 imencode st n with
  | (st', None) => exists f, getFrame st n = (st', f) /\ mat_empty f = true
  | (st', Some s) =>
      exists f payload, getFrame st n = (st', f) /\ mat_empty f = false /\
        s = ("data:image/jpeg;base64," ++ payload)%string /\
        b64_decode (list_ascii_of_string payload) = Some (imencode f)
  end.
Proof.
  unfold GetFrameBase64. destruct (getFrame st n) as [st' f] eqn:Hg.
  destruct (mat_empty f) eqn:He.
  - exists f. split; [reflexivity | exact He].
  - exists f, (b64_encode (imencode f)).
    split; [reflexivity|]. split; [exact He|]. split; [reflexivity|].
    apply b64_encode_roundtrip, imencode_bytes.
Qed.

End FrameBase64.

Lemma GetFrameBase64_payload_witness :
  (forall m : Mat, Forall is_byte ((fun _ => [255; 216; 255]) m)) /\
  match GetFrameBase64 (fun _ => [255; 216; 255]) engine_cached 7 with
  | (st', None) => exists f, getFrame engine_cached 7 = (st', f) /\ mat_empty f = true
  | (st', Some s) =>
      exists f payload, getFrame engine_cached 7 = (st', f) /\ mat_empty f = false /\
        s = ("data:image/jpeg;base64," ++ payload)%string /\
        b64_decode (list_ascii_of_string payload) = Some ((fun _ => [255; 216; 255]) f)
  end.
Proof.
  assert (H : forall m : Mat, Forall is_byte ((fun _ => [255; 216; 255]) m))
    by (intros m; repeat constructor; unfold is_byte; lia).
  split; [exact H | apply (GetFrameBase64_payload (fun _ => [255; 216; 255]) H)].
Defined.
